(** * iNewsFlow: article identity, aggregation and engagement state

    A shallow embedding of the backend of [src/public/app.js] (the Express
    server that proxies the news provider, keeps the article catalogue and
    the like and comment stores) together with the properties of its
    identity, aggregation and engagement logic.

    Conventions of the embedding.
    - A JavaScript string is a [string] (a byte sequence holding the UTF-8
      text that [crypto] hashes); the JavaScript [length] of the text, in
      UTF-16 code units, is [js_length], which is [String.length] on ASCII
      text.
    - A field that may be missing ([undefined] or [null]) is an [option];
      truthiness of a string is non-emptiness.
    - A JavaScript object used as a map ([articleStore], [likesDB],
      [commentsDB]) is a [gmap] with string keys, which holds the own
      properties of the object; the members that every object inherits
      from [Object.prototype] are the keys [proto_keys].  A [Set] of user
      names is a [gset], an array a [list].
    - Handlers are state-passing functions: they take the server state
      and return the new state with the HTTP response.  Clock readings
      ([Date.now()], [new Date().toISOString()]) and the answers of the
      upstream provider are inputs of the handlers. *)

From Stdlib Require Import ZArith NArith Ascii String List Sorted Permutation.
From stdpp Require Import base decidable list gmap sets strings pretty.

Local Open Scope string_scope.

(** ** SHA-1 ([crypto.createHash('sha1').update(s).digest('hex')]) *)

Module Sha1.
Local Open Scope N_scope.

Definition mask32 : N := 4294967295.
Definition w32 (x : N) : N := N.land x mask32.
Definition rotl (n x : N) : N :=
  w32 (N.lor (N.shiftl x n) (N.shiftr x (32 - n))).

Fixpoint bytes_of (s : string) : list N :=
  match s with
  | EmptyString => []
  | String c r => N_of_ascii c :: bytes_of r
  end.

(** Big-endian bytes of [x], [n] of them. *)
Fixpoint be_bytes (n : nat) (x : N) : list N :=
  match n with
  | O => []
  | S k => N.land (N.shiftr x (8 * N.of_nat k)) 255 :: be_bytes k x
  end.

(** The message, the byte 0x80, zeros up to 56 mod 64, the bit length. *)
Definition pad (m : list N) : list N :=
  let len := length m in
  let zeros := ((64 - (len + 9) mod 64) mod 64)%nat in
  m ++ 128 :: repeat 0 zeros ++ be_bytes 8 (8 * N.of_nat len).

Fixpoint words_of (fuel : nat) (bs : list N) : list N :=
  match fuel, bs with
  | S k, a :: b :: c :: d :: r =>
      N.lor (N.shiftl a 24) (N.lor (N.shiftl b 16) (N.lor (N.shiftl c 8) d))
        :: words_of k r
  | _, _ => []
  end.

(** The message schedule, most recent word first. *)
Fixpoint schedule (n : nat) (rev_ws : list N) : list N :=
  match n with
  | O => rev_ws
  | S k =>
      let w := rotl 1 (N.lxor (N.lxor (nth 2 rev_ws 0) (nth 7 rev_ws 0))
                              (N.lxor (nth 13 rev_ws 0) (nth 15 rev_ws 0))) in
      schedule k (w :: rev_ws)
  end.

Definition state : Type := N * N * N * N * N.

Definition round (t : nat) (st : state) (w : N) : state :=
  let '(a, b, c, d, e) := st in
  let '(f, k) :=
    if (t <? 20)%nat then (N.lor (N.land b c) (N.ldiff d b), 1518500249)
    else if (t <? 40)%nat then (N.lxor (N.lxor b c) d, 1859775393)
    else if (t <? 60)%nat then
      (N.lor (N.lor (N.land b c) (N.land b d)) (N.land c d), 2400959708)
    else (N.lxor (N.lxor b c) d, 3395469782) in
  (w32 (rotl 5 a + f + e + k + w), a, rotl 30 b, c, d).

Fixpoint rounds (t : nat) (st : state) (ws : list N) : state :=
  match ws with
  | [] => st
  | w :: r => rounds (S t) (round t st w) r
  end.

Definition block (h : state) (ws16 : list N) : state :=
  let '(h0, h1, h2, h3, h4) := h in
  let '(a, b, c, d, e) := rounds 0 h (rev (schedule 64 (rev ws16))) in
  (w32 (h0 + a), w32 (h1 + b), w32 (h2 + c), w32 (h3 + d), w32 (h4 + e)).

Fixpoint blocks (fuel : nat) (h : state) (ws : list N) : state :=
  match fuel with
  | O => h
  | S k =>
      match ws with
      | [] => h
      | _ => blocks k (block h (firstn 16 ws)) (skipn 16 ws)
      end
  end.

Definition init : state :=
  (1732584193, 4023233417, 2562383102, 271733878, 3285377520).

Definition hex_digit (x : N) : ascii :=
  ascii_of_N (if x <? 10 then 48 + x else 87 + x).

Fixpoint hex_be (n : nat) (x : N) (k : string) : string :=
  match n with
  | O => k
  | S m => String (hex_digit (N.land (N.shiftr x (4 * N.of_nat m)) 15))
                  (hex_be m x k)
  end.

Definition digest (s : string) : state :=
  let bs := pad (bytes_of s) in
  let ws := words_of (length bs) bs in
  blocks (length ws) init ws.

Definition hex (s : string) : string :=
  let '(a, b, c, d, e) := digest s in
  hex_be 8 a (hex_be 8 b (hex_be 8 c (hex_be 8 d (hex_be 8 e "")))).
End Sha1.

Definition sha1 (s : string) : string := Sha1.hex s.

Arguments sha1 : simpl never.

(** ** JavaScript values used by the server *)

(** [!!s] for a string that may be missing: [undefined], [null] and the
    empty string are falsy. *)
Definition truthy (o : option string) : bool :=
  match o with
  | Some (String _ _) => true
  | _ => false
  end.

(** [a || b] on such values. *)
Definition js_or (a b : option string) : option string :=
  if truthy a then a else b.

(** [s.length]: the number of UTF-16 code units of the text, one for a
    character of up to three bytes and two for a character of four
    bytes. *)
Fixpoint utf16_length (l : list ascii) : nat :=
  match l with
  | [] => 0
  | c :: r =>
      let n := nat_of_ascii c in
      ((if (128 <=? n)%nat && (n <? 192)%nat then 0
        else if (240 <=? n)%nat then 2 else 1) + utf16_length r)%nat
  end.

Definition js_length (s : string) : nat :=
  utf16_length (list_ascii_of_string s).

(** The white space that [String.prototype.trim] strips, in UTF-8: the
    ASCII characters tab, line feed, vertical tab, form feed, carriage
    return and space; U+00A0; and, in three bytes, U+1680, U+2000 to
    U+200A, U+2028, U+2029, U+202F, U+205F, U+3000 and U+FEFF. *)
Definition is_space (c : ascii) : bool :=
  let n := nat_of_ascii c in
  ((9 <=? n)%nat && (n <=? 13)%nat) || (n =? 32)%nat.

Definition is_space2 (c1 c2 : ascii) : bool :=
  (nat_of_ascii c1 =? 194)%nat && (nat_of_ascii c2 =? 160)%nat.

Definition is_space3 (c1 c2 c3 : ascii) : bool :=
  let n1 := nat_of_ascii c1 in
  let n2 := nat_of_ascii c2 in
  let n3 := nat_of_ascii c3 in
  ((n1 =? 225) && (n2 =? 154) && (n3 =? 128))%nat
  || ((n1 =? 226) && (n2 =? 128)
      && (((128 <=? n3) && (n3 <=? 138)) || (n3 =? 168) || (n3 =? 169)
          || (n3 =? 175)))%nat
  || ((n1 =? 226) && (n2 =? 129) && (n3 =? 159))%nat
  || ((n1 =? 227) && (n2 =? 128) && (n3 =? 128))%nat
  || ((n1 =? 239) && (n2 =? 187) && (n3 =? 191))%nat.

(** The bytes that are left when the white space at the head of [l] is
    dropped, for tests of one, two and three bytes. *)
Fixpoint strip (t1 : ascii → bool) (t2 : ascii → ascii → bool)
    (t3 : ascii → ascii → ascii → bool) (l : list ascii) : list ascii :=
  match l with
  | [] => []
  | c1 :: r1 =>
      if t1 c1 then strip t1 t2 t3 r1
      else
        match r1 with
        | [] => l
        | c2 :: r2 =>
            if t2 c1 c2 then strip t1 t2 t3 r2
            else
              match r2 with
              | [] => l
              | c3 :: r3 => if t3 c1 c2 c3 then strip t1 t2 t3 r3 else l
              end
        end
  end.

(** The text without the white space at its start. *)
Definition drop_space : list ascii → list ascii :=
  strip is_space is_space2 is_space3.

(** The same on the reversed text, whose first byte is the last byte of
    the text: the text without the white space at its end. *)
Definition drop_space_end : list ascii → list ascii :=
  strip is_space (λ c1 c2, is_space2 c2 c1) (λ c1 c2 c3, is_space3 c3 c2 c1).

(** [String.prototype.trim] *)
Definition trim (s : string) : string :=
  string_of_list_ascii
    (rev (drop_space_end (rev (drop_space (list_ascii_of_string s))))).

(** The names of the members that every object inherits from
    [Object.prototype]: [obj[k]] is such a member, a function or (for
    [__proto__]) the prototype itself, when [obj] has no own property
    [k]. *)
Definition proto_keys : list string :=
  ["constructor"; "__proto__"; "hasOwnProperty"; "isPrototypeOf";
   "propertyIsEnumerable"; "toLocaleString"; "toString"; "valueOf";
   "__defineGetter__"; "__defineSetter__"; "__lookupGetter__";
   "__lookupSetter__"].

(** [obj[k]] is an inherited member: truthy, and not a value of the map. *)
Definition inherited {V} (obj : gmap string V) (k : string) : bool :=
  match obj !! k with
  | Some _ => false
  | None => bool_decide (k ∈ proto_keys)
  end.

(** [String(m)] for the inherited member [m] of name [k], as the query of
    the provider gets it. *)
Definition inherited_text (k : string) : string :=
  if decide (k = "__proto__") then "[object Object]"
  else "function "
       +:+ (if decide (k = "constructor") then "Object" else k)
       +:+ "() { [native code] }".

(** [Array.prototype.slice(start, end)] for integer arguments: a negative
    index counts from the end, and both are clamped to the array. *)
Definition js_slice {A} (l : list A) (start fin : Z) : list A :=
  let len := Z.of_nat (length l) in
  let k := if (start <? 0)%Z then Z.max (len + start) 0 else Z.min start len in
  let e := if (fin <? 0)%Z then Z.max (len + fin) 0 else Z.min fin len in
  take (Z.to_nat (Z.max (e - k) 0)) (drop (Z.to_nat k) l).

(** [Array.from(new Set(l))]: the elements of [l] in the order of their
    first occurrence. *)
Fixpoint uniq_from (seen : gset string) (l : list string) : list string :=
  match l with
  | [] => []
  | x :: r =>
      if decide (x ∈ seen) then uniq_from seen r
      else x :: uniq_from ({[x]} ∪ seen) r
  end.

Definition array_from_set (l : list string) : list string := uniq_from ∅ l.

(** ** Data model *)

(** A raw article of the provider ([data.articles[i]]); [n_source] is
    [n.source?.name]. *)
Record raw_article := {
  n_title : option string;
  n_description : option string;
  n_urlToImage : option string;
  n_publishedAt : option string;
  n_url : option string;
  n_source : option string
}.

(** [{ ...a, apiCategory: cat }] *)
Record sighting := {
  s_raw : raw_article;
  apiCategory : string
}.

(** An entry of [articleStore].  [a_category] is the single category that
    the trending handler writes; the list handler keeps it when it merges
    ([Object.assign({}, existing, ...)]). *)
Record article := {
  a_id : string;
  a_title : option string;
  a_summary : option string;
  a_cover : option string;
  a_publishedAt : option string;
  a_url : option string;
  a_source : option string;
  a_categories : option (list string);
  a_primaryCategory : option string;
  a_category : option string
}.

(** An entry of [likesDB]. *)
Record like_record := {
  count : Z;
  users : gset string
}.

(** An element of [commentsDB[id]].  The three fields of the oldest
    format are always there; [c_id], [c_likedBy] and [c_likes] came
    later. *)
Record comment := {
  c_id : option string;
  c_username : string;
  c_text : string;
  c_createdAt : string;
  c_likedBy : option (list string);
  c_likes : option Z
}.

Record server := {
  articleStore : gmap string article;
  likesDB : gmap string like_record;
  commentsDB : gmap string (list comment)
}.

Definition empty_server : server :=
  {| articleStore := ∅; likesDB := ∅; commentsDB := ∅ |}.

(** What a handler sends: [res.json(body)] or
    [res.status(code).json({ error })].  When a handler throws, the error
    handler of Express answers with status 500 and an error page
    ([uncaught]). *)
Inductive response (A : Type) : Type :=
  | Json (body : A)
  | Status (code : Z) (error : string).
Arguments Json {A} body.
Arguments Status {A} code error.

Definition uncaught {A} : response A := Status 500 "Internal Server Error".

(** The error kinds of the interface. *)
Definition ValidationError {A} (r : response A) : Prop :=
  ∃ msg, r = Status 400 msg.
Definition AuthError {A} (r : response A) : Prop :=
  ∃ msg, r = Status 401 msg.
Definition NotFoundError {A} (r : response A) : Prop :=
  ∃ msg, r = Status 404 msg.

(** ** Identity *)

(** [makeIdFromUrl(url)]; [now] is the reading of [Date.now()]. *)
Definition makeIdFromUrl (now : Z) (url : option string) : string :=
  match url with
  | Some (String _ _ as u) => sha1 u
  | _ => "local_" +:+ pretty now
  end.

(** [likesDB[id]?.count || 0] *)
Definition like_count (likes : gmap string like_record) (id : string) : Z :=
  match likes !! id with
  | Some r => count r
  | None => 0
  end.

(** ** The list endpoint: [GET /api/news] *)

(** [fetchHeadlines]: the provider's answer for an upstream category, a
    search term and a page size; [None] when [httpJSON] throws (network
    failure, timeout, a status that is not 2xx), otherwise
    [data.articles || []]. *)
Definition FeedSource : Type := string → string → N → option (list raw_article).

(** The query of the list endpoint, after the defaults ([category = "tech"],
    [q = ""], [page = 1], [pageSize = 10]); [rq_page] and [rq_pageSize] are
    [Number(page)] and [Number(pageSize)], taken to be integers. *)
Record news_query := {
  rq_category : string;
  rq_q : string;
  rq_page : Z;
  rq_pageSize : Z
}.

(** An element of [items] in the answer. *)
Record item := {
  i_id : string;
  i_title : option string;
  i_summary : option string;
  i_cover : option string;
  i_category : string;
  i_publishedAt : option string;
  i_likes : Z;
  i_url : option string;
  i_source : option string
}.

Record news_body := {
  items : list item;
  totalResults : nat
}.

Definition categoryMap (category : string) : option string :=
  if decide (category = "tech") then Some "technology"
  else if decide (category = "business") then Some "business"
  else if decide (category = "world") then Some "general"
  else if decide (category = "sports") then Some "sports"
  else None.

Definition reverseMap (cat : string) : option string :=
  if decide (cat = "technology") then Some "tech"
  else if decide (cat = "business") then Some "business"
  else if decide (cat = "general") then Some "world"
  else if decide (cat = "sports") then Some "sports"
  else None.

Definition categoriesToFetch : list string :=
  ["technology"; "business"; "general"; "sports"].

Definition tag (cat : string) (a : raw_article) : sighting :=
  {| s_raw := a; apiCategory := cat |}.

(** [reverseMap[n.apiCategory] || 'world'] *)
Definition frontendCat (n : sighting) : string :=
  default "world" (reverseMap (apiCategory n)).

(** The URL-based filter of the aggregate branch: a record without URL or
    with a URL already seen is dropped. *)
Fixpoint dedup_by_url (seen : gset string) (l : list sighting) : list sighting :=
  match l with
  | [] => []
  | a :: r =>
      match n_url (s_raw a) with
      | Some (String _ _ as u) =>
          if decide (u ∈ seen) then dedup_by_url seen r
          else a :: dedup_by_url ({[u]} ∪ seen) r
      | _ => dedup_by_url seen r
      end
  end.

(** [stored && stored.categories && stored.categories.includes(category)] *)
Definition in_category (store : gmap string article) (category : string)
    (it : item) : bool :=
  match store !! i_id it with
  | Some stored =>
      match a_categories stored with
      | Some cs => bool_decide (category ∈ cs)
      | None => false
      end
  | None => false
  end.

(** The pagination of the filtered items. *)
Definition paginate (filteredItems : list item) (page pageSize : Z) : news_body :=
  let startIdx := ((page - 1) * pageSize)%Z in
  let endIdx := (startIdx + pageSize)%Z in
  {| items := js_slice filteredItems startIdx endIdx;
     totalResults := length filteredItems |}.

Section Server.

(** The two functions of [Date] that the server uses:
    [new Date(s).getTime()] on the time stamps of the provider (taken to
    be valid dates) and [new Date(ms).toISOString()]. *)
Variable getTime : string → Z.
Variable toISOString : Z → string.

(** [new Date(a.publishedAt || 0).getTime()] *)
Definition date_key (a : sighting) : Z :=
  match n_publishedAt (s_raw a) with
  | Some (String _ _ as s) => getTime s
  | _ => 0%Z
  end.

(** [allArticles.sort((a, b) => dateB - dateA)]: the sort of the engine
    is stable, so its result is the one of this insertion sort. *)
Fixpoint insert_by_date (x : sighting) (l : list sighting) : list sighting :=
  match l with
  | [] => [x]
  | y :: r =>
      if (date_key y <=? date_key x)%Z then x :: l
      else y :: insert_by_date x r
  end.

Fixpoint sort_by_date (l : list sighting) : list sighting :=
  match l with
  | [] => []
  | x :: r => insert_by_date x (sort_by_date r)
  end.

(** The fan-out of the aggregate category: a category whose fetch fails
    contributes nothing. *)
Definition fetch_all (feed : FeedSource) (q : string) : list sighting :=
  concat (map (λ cat, match feed cat q 25%N with
                      | Some l => map (tag cat) l
                      | None => []
                      end) categoriesToFetch).

(** [categoryMap[category] || 'general']: for a category that is the name
    of an inherited member, the member is what the request to the provider
    and the tag of the records get. *)
Definition upstream_category (category : string) : string :=
  match categoryMap category with
  | Some cat => cat
  | None =>
      if bool_decide (category ∈ proto_keys) then inherited_text category
      else "general"
  end.

(** [allArticles]; [None] when the handler's [try] block throws. *)
Definition collect (feed : FeedSource) (category q : string)
    : option (list sighting) :=
  if decide (category = "news") then
    Some (dedup_by_url ∅ (sort_by_date (fetch_all feed q)))
  else
    let apiCategory := upstream_category category in
    match feed apiCategory q 50%N with
    | Some l => Some (map (tag apiCategory) l)
    | None => None
    end.

(** The identifier of the record at index [idx]. *)
Definition article_id (category : string) (page : Z) (now : Z) (idx : nat)
    (n : sighting) : string :=
  match makeIdFromUrl now (n_url (s_raw n)) with
  | "" => "news_" +:+ category +:+ "_" +:+ pretty page +:+ "_" +:+ pretty idx
  | id => id
  end.

(** The record that the handler stores under [id]:
    [Object.assign({}, existing, { ... })]. *)
Definition merge (id : string) (existing : option article) (n : sighting)
    : article :=
  let existingCategories := default [] (existing ≫= a_categories) in
  {| a_id := id;
     a_title := js_or (n_title (s_raw n)) (existing ≫= a_title);
     a_summary := js_or (n_description (s_raw n)) (existing ≫= a_summary);
     a_cover := js_or (n_urlToImage (s_raw n)) (existing ≫= a_cover);
     a_publishedAt :=
       js_or (n_publishedAt (s_raw n)) (existing ≫= a_publishedAt);
     a_url := js_or (n_url (s_raw n)) (existing ≫= a_url);
     a_source :=
       js_or (js_or (n_source (s_raw n)) (existing ≫= a_source)) (Some "");
     a_categories :=
       Some (array_from_set
               (existingCategories ++ [frontendCat n; "news"])%list);
     a_primaryCategory := Some (frontendCat n);
     a_category := existing ≫= a_category |}.

Definition upsert (id : string) (n : sighting) (store : gmap string article)
    : gmap string article :=
  <[id := merge id (store !! id) n]> store.

Definition make_item (category id : string) (likes : gmap string like_record)
    (n : sighting) : item :=
  {| i_id := id;
     i_title := n_title (s_raw n);
     i_summary := n_description (s_raw n);
     i_cover := n_urlToImage (s_raw n);
     i_category :=
       if decide (category = "news") then frontendCat n else category;
     i_publishedAt := n_publishedAt (s_raw n);
     i_likes := like_count likes id;
     i_url := n_url (s_raw n);
     i_source := js_or (n_source (s_raw n)) (Some "") |}.

(** [allArticles.map((n, idx) => ...)] from index [idx] on; [now i] is
    the reading of [Date.now()] while the record at index [i] is
    handled. *)
Fixpoint upsert_all (category : string) (page : Z) (now : nat → Z)
    (likes : gmap string like_record) (idx : nat)
    (store : gmap string article) (l : list sighting)
    : gmap string article * list item :=
  match l with
  | [] => (store, [])
  | n :: r =>
      let id := article_id category page (now idx) idx n in
      let '(store', its) :=
        upsert_all category page now likes (S idx) (upsert id n store) r in
      (store', make_item category id likes n :: its)
  end.

(** The two placeholder items of the [catch] block; [now 0] to [now 3]
    are its four clock readings. *)
Definition sample (category : string) (now : nat → Z) : list item :=
  [ {| i_id := "local_" +:+ pretty (now 0%nat) +:+ "_1";
       i_title := Some ("示例文章 - " +:+ category +:+ " - 1");
       i_summary :=
         Some ("这是分类 " +:+ category +:+ " 的示例摘要，用于离线展示。");
       i_cover := Some "";
       i_category := category;
       i_publishedAt := Some (toISOString (now 1%nat));
       i_likes := 0;
       i_url := Some "";
       i_source := None |};
    {| i_id := "local_" +:+ pretty (now 2%nat) +:+ "_2";
       i_title := Some ("示例文章 - " +:+ category +:+ " - 2");
       i_summary := Some "第二条示例内容，帮助测试分类过滤。";
       i_cover := Some "";
       i_category := category;
       i_publishedAt := Some (toISOString (now 3%nat));
       i_likes := 0;
       i_url := Some "";
       i_source := None |} ].

(** The items before pagination, with the new catalogue. *)
Definition listing (category : string) (page : Z) (now : nat → Z)
    (st : server) (allArticles : list sighting)
    : gmap string article * list item :=
  let '(store, its) :=
    upsert_all category page now (likesDB st) 0 (articleStore st) allArticles in
  (store,
   if decide (category = "news") then its
   else filter (λ it, in_category store category it = true) its).

Definition api_news (feed : FeedSource) (now : nat → Z) (st : server)
    (rq : news_query) : server * news_body :=
  match collect feed (rq_category rq) (rq_q rq) with
  | Some allArticles =>
      let '(store, filteredItems) :=
        listing (rq_category rq) (rq_page rq) now st allArticles in
      ({| articleStore := store;
          likesDB := likesDB st;
          commentsDB := commentsDB st |},
       paginate filteredItems (rq_page rq) (rq_pageSize rq))
  | None =>
      let s := sample (rq_category rq) now in
      (st, {| items := s; totalResults := length s |})
  end.

(** ** Comments: [GET] and [POST /api/articles/:id/comments] *)

(** An element of the answer of the comment list:
    [Object.assign({}, it, { likes, liked })]. *)
Record comment_view := {
  v_id : option string;
  v_username : string;
  v_text : string;
  v_createdAt : string;
  v_likedBy : option (list string);
  v_likes : Z;
  v_liked : bool
}.

Definition comment_key (id username createdAt text : string) : string :=
  sha1 (id +:+ "|" +:+ username +:+ "|" +:+ createdAt +:+ "|" +:+ text).

(** The in-place upgrade of a stored comment without identifier. *)
Definition upgrade (id : string) (it : comment) : comment :=
  if truthy (c_id it) then it
  else
    {| c_id :=
         Some (comment_key id (c_username it) (c_createdAt it) (c_text it));
       c_username := c_username it;
       c_text := c_text it;
       c_createdAt := c_createdAt it;
       c_likedBy := Some (default [] (c_likedBy it));
       c_likes := c_likes it |}.

(** The view of a comment, computed after its upgrade. *)
Definition view (username : option string) (it : comment) : comment_view :=
  {| v_id := c_id it;
     v_username := c_username it;
     v_text := c_text it;
     v_createdAt := c_createdAt it;
     v_likedBy := c_likedBy it;
     v_likes :=
       match c_likedBy it with
       | Some l => Z.of_nat (length l)
       | None => default 0%Z (c_likes it)
       end;
     v_liked :=
       match username, c_likedBy it with
       | Some (String _ _ as u), Some l => bool_decide (u ∈ l)
       | _, _ => false
       end |}.

(** The handlers of the comments of an article are given for an article
    [id] that is not the name of an inherited member of [commentsDB]
    without comments of its own: for such an [id], [commentsDB[id]] is the
    member, and [items.map] and [push] throw. *)
Definition listComments (st : server) (id : string) (username : option string)
    : server * list comment_view :=
  match commentsDB st !! id with
  | Some its =>
      let its' := map (upgrade id) its in
      ({| articleStore := articleStore st;
          likesDB := likesDB st;
          commentsDB := <[id := its']> (commentsDB st) |},
       map (view username) its')
  | None => (st, [])
  end.

(** [now] is the clock reading of [new Date()]. *)
Definition addComment (st : server) (id : string) (username text : option string)
    (now : Z) : server * response comment :=
  if negb (truthy username) then (st, Status 401 "请先登录")
  else if negb (truthy text) || negb (truthy (Some (trim (default "" text))))
  then (st, Status 400 "评论不能为空")
  else
    let createdAt := toISOString now in
    let text' := trim (default "" text) in
    let it :=
      {| c_id := Some (comment_key id (default "" username) createdAt text');
         c_username := default "" username;
         c_text := text';
         c_createdAt := createdAt;
         c_likedBy := Some [];
         c_likes := Some 0%Z |} in
    ({| articleStore := articleStore st;
        likesDB := likesDB st;
        commentsDB :=
          <[id := (default [] (commentsDB st !! id) ++ [it])%list]> (commentsDB st) |},
     Json it).

(** The check of the browser client before it posts a comment
    ([submitComment.onclick]): the outcome is an alert or the text that
    is posted. *)
Inductive client_outcome : Type :=
  | Alert (msg : string)
  | Post (username text : string).

Definition submitComment (currentUser : option string) (value : string)
    : client_outcome :=
  match currentUser with
  | Some (String _ _ as u) =>
      let txt := trim value in
      if negb (truthy (Some txt)) then Alert "评论不能为空"
      else if (300 <? js_length txt)%nat then Alert "评论不能超过 300 字"
      else Post u txt
  | _ => Alert "请先登录"
  end.

(** ** Likes: [POST /api/articles/:id/like] *)







(** ** The trending endpoint: [GET /api/trending] *)

Record trend_item := {
  t_id : string;
  t_title : option string;
  t_url : option string;
  t_likes : Z
}.

Definition trend_id (now : Z) (idx : nat) (n : raw_article) : string :=
  match makeIdFromUrl now (n_url n) with
  | "" => "trend_" +:+ pretty idx
  | id => id
  end.

(** The record stored for an article seen for the first time. *)
Definition trend_article (id : string) (n : raw_article) : article :=
  {| a_id := id;
     a_title := n_title n;
     a_summary := n_description n;
     a_cover := n_urlToImage n;
     a_publishedAt := n_publishedAt n;
     a_url := n_url n;
     a_source := js_or (n_source n) (Some "");
     a_categories := None;
     a_primaryCategory := None;
     a_category := Some "tech" |}.

Fixpoint trend_all (now : nat → Z) (likes : gmap string like_record)
    (idx : nat) (store : gmap string article) (l : list raw_article)
    : gmap string article * list trend_item :=
  match l with
  | [] => (store, [])
  | n :: r =>
      let id := trend_id (now idx) idx n in
      let store1 :=
        match store !! id with
        | Some _ => store
        | None => <[id := trend_article id n]> store
        end in
      let '(store', its) := trend_all now likes (S idx) store1 r in
      (store',
       {| t_id := id; t_title := n_title n; t_url := n_url n;
          t_likes := like_count likes id |} :: its)
  end.

Definition trend_sample : list trend_item :=
  [ {| t_id := "local_tr_1"; t_title := Some "本地示例热点 1";
       t_url := Some ""; t_likes := 0 |};
    {| t_id := "local_tr_2"; t_title := Some "本地示例热点 2";
       t_url := Some ""; t_likes := 0 |};
    {| t_id := "local_tr_3"; t_title := Some "本地示例热点 3";
       t_url := Some ""; t_likes := 0 |} ].

Definition api_trending (feed : FeedSource) (now : nat → Z) (st : server)
    : server * list trend_item :=
  match feed "technology" "" 10%N with
  | Some l =>
      let '(store, its) := trend_all now (likesDB st) 0 (articleStore st) l in
      ({| articleStore := store;
          likesDB := likesDB st;
          commentsDB := commentsDB st |}, its)
  | None => (st, trend_sample)
  end.

End Server.

(** ** Comment likes: [POST /api/articles/:id/comments/:commentId/like] *)

(** [l.splice(l.indexOf(u), 1)] for [u] in [l]: the first occurrence goes. *)
Fixpoint remove_first (u : string) (l : list string) : list string :=
  match l with
  | [] => []
  | x :: r => if decide (x = u) then r else x :: remove_first u r
  end.

(** The toggle on the comment found, with the answer [(likes, liked)]. *)
Definition toggle_comment (u : string) (c : comment) : comment * (Z * bool) :=
  let likedBy := default [] (c_likedBy c) in
  let '(likedBy', liked) :=
    if decide (u ∈ likedBy) then (remove_first u likedBy, false)
    else ((likedBy ++ [u])%list, true) in
  ({| c_id := c_id c;
      c_username := c_username c;
      c_text := c_text c;
      c_createdAt := c_createdAt c;
      c_likedBy := Some likedBy';
      c_likes := Some (Z.of_nat (length likedBy')) |},
   (Z.of_nat (length likedBy'), liked)).

(** For an [id] that is the name of an inherited member of [commentsDB],
    [commentsDB[id] || []] is the member, and [items.find] throws. *)
Definition toggleCommentLike (st : server) (id commentId : string)
    (username : option string) : server * response (Z * bool) :=
  match username with
  | Some (String _ _ as u) =>
      if inherited (commentsDB st) id then (st, uncaught)
      else
        let its := default [] (commentsDB st !! id) in
        match list_find (λ x, c_id x = Some commentId) its with
        | Some (i, c) =>
            let '(c', r) := toggle_comment u c in
            ({| articleStore := articleStore st;
                likesDB := likesDB st;
                commentsDB := <[id := <[i := c']> its]> (commentsDB st) |},
             Json r)
        | None => (st, Status 404 "comment not found")
        end
  | _ => (st, Status 401 "请先登录")
  end.

(** ** The article detail: [GET /api/articles/:id] *)

(** The answer is [{ ...a, likes }]: the fields of the record with the
    like count.  For an [id] that is the name of an inherited member of
    [articleStore], [a] is the member, which is truthy and has no field to
    copy: the answer is [{ likes }], here without record. *)
Definition getArticle (st : server) (id : string)
    : response (option article * Z) :=
  match articleStore st !! id with
  | Some a => Json (Some a, like_count (likesDB st) id)
  | None =>
      if bool_decide (id ∈ proto_keys)
      then Json (None, like_count (likesDB st) id)
      else Status 404 "Not found"
  end.

(** ** Accounts: [POST /api/register] and [POST /api/login] *)

Record user := {
  username : string;
  password : string
}.

(** The answer [{ message }] of a registration. *)
Definition register (users : list user) (name pass : option string)
    : list user * response string :=
  match name, pass with
  | Some (String _ _ as u), Some (String _ _ as p) =>
      match list_find (λ x, username x = u) users with
      | Some _ => (users, Status 400 "用户名已存在")
      | None =>
          ((users ++ [{| username := u; password := p |}])%list,
           Json "注册成功")
      end
  | _, _ => (users, Status 400 "缺少参数")
  end.

(** The answer [{ message, username }] of a login, here the user name. *)
Definition login (users : list user) (name pass : option string)
    : response string :=
  match list_find (λ x, Some (username x) = name ∧ Some (password x) = pass)
                  users with
  | Some (_, x) => Json (username x)
  | None => Status 401 "用户名或密码错误"
  end.

(** ** The browser client *)

(** [escapeHtml(s)]: the four characters ampersand, less-than,
    greater-than and double quote are replaced by their entities. *)
Definition escape_char (c : ascii) : string :=
  if decide (c = "&"%char) then "&amp;"
  else if decide (c = "<"%char) then "&lt;"
  else if decide (c = ">"%char) then "&gt;"
  else if decide (c = "034"%char) then "&quot;"
  else String c "".

Fixpoint escape (s : string) : string :=
  match s with
  | EmptyString => ""
  | String c r => escape_char c +:+ escape r
  end.

Definition escapeHtml (s : option string) : string :=
  match s with
  | Some (String _ _ as t) => escape t
  | _ => ""
  end.

(** The paging state of the feed ([state]) with the cards of the feed. *)
Record feed_state := {
  fs_page : Z;
  fs_busy : bool;
  fs_eof : bool;
  fs_feed : list item
}.

(** [loadMore()]; [answer] is what [GET /api/news] gives for the page of
    the state with a page size of 10, [None] when the request fails. *)
Definition loadMore (answer : Z → option news_body) (s : feed_state)
    : feed_state :=
  if fs_busy s || fs_eof s then s
  else
    match answer (fs_page s) with
    | Some data =>
        let its := items data in
        {| fs_page := if (0 <? length its)%nat then fs_page s + 1 else fs_page s;
           fs_busy := false;
           fs_eof := (length its <? 10)%nat;
           fs_feed := (fs_feed s ++ its)%list |}
    | None =>
        {| fs_page := fs_page s; fs_busy := false; fs_eof := true;
           fs_feed := fs_feed s |}
    end.

(** The state after [refresh()] has emptied the feed, before its
    [loadMore()]. *)
Definition refreshed : feed_state :=
  {| fs_page := 1; fs_busy := false; fs_eof := false; fs_feed := [] |}.

(** The answers of the list endpoint for a fixed list of filtered items
    and the page size 10 of the client. *)
Definition answer_of (filteredItems : list item) (page : Z) : option news_body :=
  Some (paginate filteredItems page 10).

(** ** An instance of the two [Date] functions

    The UTC calendar for the time stamps of the provider
    ([YYYY-MM-DDTHH:MM:SSZ], with optional milliseconds) and the ISO
    format of [toISOString]; it instantiates the server in the examples. *)

Module IsoDate.
Local Open Scope Z_scope.

(** Days since 1970-01-01 of a civil date. *)
Definition days_from_civil (y m d : Z) : Z :=
  let y' := if m <=? 2 then y - 1 else y in
  let era := y' / 400 in
  let yoe := y' - era * 400 in
  let doy := (153 * (if 2 <? m then m - 3 else m + 9) + 2) / 5 + d - 1 in
  let doe := yoe * 365 + yoe / 4 - yoe / 100 + doy in
  era * 146097 + doe - 719468.

Definition civil_from_days (days : Z) : Z * Z * Z :=
  let z := days + 719468 in
  let era := z / 146097 in
  let doe := z - era * 146097 in
  let yoe := (doe - doe / 1460 + doe / 36524 - doe / 146096) / 365 in
  let doy := doe - (365 * yoe + yoe / 4 - yoe / 100) in
  let mp := (5 * doy + 2) / 153 in
  let d := doy - (153 * mp + 2) / 5 + 1 in
  let m := if mp <? 10 then mp + 3 else mp - 9 in
  (yoe + era * 400 + (if m <=? 2 then 1 else 0), m, d).

Definition digit (c : ascii) : Z := Z.of_nat (nat_of_ascii c) - 48.

(** The decimal number in the [len] characters of [s] from [pos]. *)
Definition number (s : string) (pos len : nat) : Z :=
  fold_left (λ acc c, 10 * acc + digit c)
            (list_ascii_of_string (substring pos len s)) 0.

Definition getTime (s : string) : Z :=
  let days :=
    days_from_civil (number s 0 4) (number s 5 2) (number s 8 2) in
  let millis :=
    match String.get 19 s with
    | Some "."%char => number s 20 3
    | _ => 0
    end in
  (((days * 24 + number s 11 2) * 60 + number s 14 2) * 60 + number s 17 2)
    * 1000 + millis.

(** [x] in decimal, padded with zeros to [n] digits. *)
Fixpoint padded (n : nat) (x : Z) (k : string) : string :=
  match n with
  | O => k
  | S m =>
      padded m (x / 10)
             (String (ascii_of_nat (48 + Z.to_nat (x mod 10))) k)
  end.

Definition toISOString (ms : Z) : string :=
  let '(y, m, d) := civil_from_days (ms / 86400000) in
  let r := ms mod 86400000 in
  padded 4 y ("-" +:+ padded 2 m ("-" +:+ padded 2 d ("T" +:+
    padded 2 (r / 3600000) (":" +:+ padded 2 (r / 60000 mod 60) (":" +:+
    padded 2 (r / 1000 mod 60) ("." +:+ padded 3 (r mod 1000) "Z")))))).
End IsoDate.

(** ** Predicates and sample data of the properties *)

(** The record of [id] in the catalogue has category [c] among its
    memberships. *)
Definition member (store : gmap string article) (id c : string) : Prop :=
  ∃ a cs, store !! id = Some a ∧ a_categories a = Some cs ∧ c ∈ cs.

Definition has_url (u : string) (a : sighting) : Prop :=
  n_url (s_raw a) = Some u.

Global Instance has_url_dec u a : Decision (has_url u a).
Proof. unfold has_url. apply _. Defined.

(** The order of the aggregate listing: [a] is not older than [b]. *)
Definition newer_first (getTime : string → Z) (a b : sighting) : Prop :=
  (date_key getTime b ≤ date_key getTime a)%Z.

(** The record of [id] in the catalogue carries [id] as its identifier. *)
Definition keyed (store : gmap string article) (id : string) : Prop :=
  ∃ a, store !! id = Some a ∧ a_id a = id.

(** The categories that the list endpoint knows. *)
Definition known_categories : list string :=
  ["tech"; "business"; "world"; "sports"; "news"].

(** Every membership list of the catalogue holds known categories only. *)
Definition known (store : gmap string article) : Prop :=
  ∀ id a cs c,
    store !! id = Some a → a_categories a = Some cs → c ∈ cs →
    c ∈ known_categories.






Module Sample.
Definition raw (title url publishedAt : option string) : raw_article :=
  {| n_title := title; n_description := None; n_urlToImage := None;
     n_publishedAt := publishedAt; n_url := url; n_source := None |}.

Definition url_a : string := "https://example.com/a".
Definition url_b : string := "https://example.com/b".

Definition old_article : article :=
  {| a_id := sha1 url_a;
     a_title := Some "Old title";
     a_summary := Some "Old summary";
     a_cover := None;
     a_publishedAt := Some "2024-01-01T00:00:00Z";
     a_url := Some url_a;
     a_source := Some "";
     a_categories := Some ["tech"; "news"];
     a_primaryCategory := Some "tech";
     a_category := None |}.

Definition new_sighting : sighting :=
  tag "technology"
      (raw (Some "New title") (Some url_a) (Some "2024-01-01T00:00:00Z")).

(** A provider that answers every request with one article. *)
Definition feed_a : FeedSource :=
  λ _ _ _, Some [raw (Some "A") (Some url_a) (Some "2024-01-01T00:00:00Z")].

(** A provider whose item of the technology feed has no URL. *)
Definition feed_nourl : FeedSource :=
  λ _ _ _, Some [raw (Some "A") (Some url_a) (Some "2024-01-01T00:00:00Z");
                 raw (Some "B") None (Some "2024-01-02T00:00:00Z")].

(** A provider whose technology feed has an article with an older time
    stamp than its business feed has for the same URL. *)
Definition older : raw_article :=
  raw (Some "A") (Some url_a) (Some "2024-01-01T00:00:00Z").

Definition newer : raw_article :=
  raw (Some "A, updated") (Some url_a) (Some "2024-01-02T00:00:00Z").

Definition feed_two : FeedSource :=
  λ cat _ _,
    if decide (cat = "technology") then Some [older]
    else if decide (cat = "business") then Some [newer]
    else Some [].

(** A provider that is down. *)
Definition feed_down : FeedSource := λ _ _ _, None.

Definition clock : nat → Z := λ i, (1700000000000 + Z.of_nat i)%Z.

Definition news (category : string) : news_query :=
  {| rq_category := category; rq_q := ""; rq_page := 1; rq_pageSize := 10 |}.

(** A comment stored in the oldest format, with a plain like count. *)
Definition legacy_comment : comment :=
  {| c_id := None; c_username := "bob"; c_text := "hi";
     c_createdAt := "2024-01-01T00:00:00.000Z";
     c_likedBy := None; c_likes := Some 5%Z |}.

Definition legacy_server : server :=
  {| articleStore := ∅; likesDB := ∅;
     commentsDB := {[ "a1" := [legacy_comment] ]} |}.


(** The no-break space U+00A0, and a text between two ideographic spaces
    U+3000. *)
Definition nbsp : string := String "194" (String "160" "").
Definition wide : string :=
  String "227" (String "128" (String "128"
    ("hi" +:+ String "227" (String "128" (String "128" ""))))).

(** A text of 101 characters of three bytes each. *)
Definition cjk101 : string :=
  string_of_list_ascii
    (concat (repeat ["232"; "175"; "132"]%char 101)).

(** Twenty-five items, as a filtered set. *)
Definition items25 : list item :=
  map (λ i, {| i_id := "item" +:+ pretty i; i_title := None;
               i_summary := None; i_cover := None; i_category := "tech";
               i_publishedAt := None; i_likes := 0; i_url := None;
               i_source := None |}) (seq 0 25).
End Sample.

(** Stored comments with identifiers, the second one with a like count
    of the legacy field and no liked-by list. *)
Module Fixture.
Definition c1 : comment :=
  {| c_id := Some "c1"; c_username := "bob"; c_text := "hi";
     c_createdAt := "2024-01-01T00:00:00.000Z";
     c_likedBy := Some ["eve"]; c_likes := Some 1%Z |}.

Definition c2 : comment :=
  {| c_id := Some "c2"; c_username := "eve"; c_text := "hello";
     c_createdAt := "2024-01-02T00:00:00.000Z";
     c_likedBy := None; c_likes := Some 7%Z |}.

Definition commented : server :=
  {| articleStore := ∅; likesDB := ∅;
     commentsDB := {[ "a1" := [c1; c2] ]} |}.

Definition accounts : list user :=
  [ {| username := "bob"; password := "secret" |} ].
End Fixture.

Local Open Scope list_scope.
Set Warnings "-clear-no-such-hyp".

(** * Properties *)

(** ** Identifiers *)

Example sha1_abc : sha1 "abc" = "a9993e364706816aba3e25717850c26c9cd0d89d".
Proof. vm_compute. reflexivity. Qed.

Example sha1_empty : sha1 "" = "da39a3ee5e6b4b0d3255bfef95601890afd80709".
Proof. vm_compute. reflexivity. Qed.

Example sha1_two_blocks :
  sha1 "abcdbcdecdefdefgefghfghighijhijkijkljklmklmnlmnomnopnopq"
  = "84983e441c3bd26ebaae4aa1f95129e5e54670f1".
Proof. vm_compute. reflexivity. Qed.


Lemma sha1_nonempty (s : string) : sha1 s ≠ "".
Proof.
  unfold sha1, Sha1.hex.
  destruct (Sha1.digest s) as [[[[a b] c] d] e].
  cbn [Sha1.hex_be]. discriminate.
Qed.

Lemma makeIdFromUrl_nonempty (now : Z) (url : option string) :
  makeIdFromUrl now url ≠ "".
Proof.
  unfold makeIdFromUrl.
  destruct url as [[|c u]|]; try (apply sha1_nonempty); discriminate.
Qed.

Lemma article_id_makeId category page now idx n :
  article_id category page now idx n = makeIdFromUrl now (n_url (s_raw n)).
Proof.
  unfold article_id.
  pose proof (makeIdFromUrl_nonempty now (n_url (s_raw n))) as H.
  destruct (makeIdFromUrl now (n_url (s_raw n))); congruence.
Qed.


Lemma makeIdFromUrl_falsy now url :
  truthy url = false → makeIdFromUrl now url = "local_" +:+ pretty now.
Proof. destruct url as [[|c u]|]; simpl; congruence. Qed.

Lemma truthy_Some_ne (s : string) : truthy (Some s) = true ↔ s ≠ "".
Proof. destruct s; simpl; split; congruence. Qed.

(** ** [a || b] *)

Lemma js_or_truthy a b : truthy a = true → js_or a b = a.
Proof. unfold js_or. intros ->. reflexivity. Qed.

Lemma js_or_falsy a b : truthy a = false → js_or a b = b.
Proof. unfold js_or. intros ->. reflexivity. Qed.

Lemma js_or_absorb a b : js_or a (js_or a b) = js_or a b.
Proof. unfold js_or. destruct (truthy a); reflexivity. Qed.

Lemma js_or_source_absorb a b :
  js_or (js_or a (js_or (js_or a b) (Some ""))) (Some "")
  = js_or (js_or a b) (Some "").
Proof.
  unfold js_or.
  destruct (truthy a) eqn:Ha; rewrite ?Ha; [reflexivity|].
  destruct (truthy b) eqn:Hb; rewrite ?Hb; simpl; reflexivity.
Qed.

(** ** [Array.from(new Set(l))] *)

Lemma elem_of_uniq_from seen l x :
  x ∈ uniq_from seen l ↔ x ∈ l ∧ x ∉ seen.
Proof.
  revert seen. induction l as [|y l IH]; intros seen; simpl.
  - set_solver.
  - destruct (decide (y ∈ seen)).
    + rewrite IH. set_solver.
    + rewrite elem_of_cons, IH. 
      destruct (decide (x = y)); set_solver.
Qed.

Lemma elem_of_array_from_set l x : x ∈ array_from_set l ↔ x ∈ l.
Proof. unfold array_from_set. rewrite elem_of_uniq_from. set_solver. Qed.

Lemma uniq_from_app seen l1 l2 :
  uniq_from seen (l1 ++ l2)
  = uniq_from seen l1 ++ uniq_from (list_to_set l1 ∪ seen) l2.
Proof.
  revert seen. induction l1 as [|y l1 IH]; intros seen; simpl.
  - f_equal. set_solver.
  - destruct (decide (y ∈ seen)).
    + rewrite IH. do 2 f_equal. set_solver.
    + simpl. rewrite IH. do 3 f_equal. set_solver.
Qed.

Lemma uniq_from_seen seen l :
  (∀ x, x ∈ l → x ∈ seen) → uniq_from seen l = [].
Proof.
  induction l as [|y l IH]; intros H; simpl; [reflexivity|].
  destruct (decide (y ∈ seen)) as [|Hn]; [apply IH; set_solver|].
  exfalso. apply Hn, H. set_solver.
Qed.

Lemma uniq_from_idem seen l :
  uniq_from seen (uniq_from seen l) = uniq_from seen l.
Proof.
  revert seen. induction l as [|y l IH]; intros seen; simpl; [reflexivity|].
  destruct (decide (y ∈ seen)) as [Hy|Hy]; [apply IH|].
  simpl. destruct (decide (y ∈ seen)); [contradiction|].
  f_equal. apply IH.
Qed.

(** A second sighting under the same category adds nothing. *)
Lemma array_from_set_again l a b :
  array_from_set (array_from_set (l ++ [a; b]) ++ [a; b])
  = array_from_set (l ++ [a; b]).
Proof.
  unfold array_from_set.
  rewrite (uniq_from_app ∅ (uniq_from ∅ (l ++ [a; b]))).
  rewrite uniq_from_idem.
  rewrite (uniq_from_seen _ [a; b]); [apply app_nil_r|].
  intros x Hx. apply elem_of_union_l, elem_of_list_to_set.
  apply elem_of_uniq_from. set_solver.
Qed.

(** ** The catalogue *)

Lemma merge_idem id existing n :
  merge id (Some (merge id existing n)) n = merge id existing n.
Proof.
  unfold merge at 1. simpl.
  rewrite !js_or_absorb, js_or_source_absorb, array_from_set_again.
  reflexivity.
Qed.

Lemma upsert_idem id n (store : gmap string article) :
  upsert id n (upsert id n store) = upsert id n store.
Proof.
  unfold upsert. rewrite lookup_insert_eq, insert_insert_eq, merge_idem.
  reflexivity.
Qed.

Lemma merge_categories id existing n :
  ∃ cs, a_categories (merge id existing n) = Some cs
        ∧ frontendCat n ∈ cs ∧ "news" ∈ cs
        ∧ ∀ c cs0, existing ≫= a_categories = Some cs0 → c ∈ cs0 → c ∈ cs.
Proof.
  eexists. split; [reflexivity|].
  rewrite !elem_of_array_from_set. repeat split; [set_solver..|].
  intros c cs0 -> Hc. apply elem_of_array_from_set. set_solver.
Qed.

Lemma upsert_member_new id n (store : gmap string article) :
  member (upsert id n store) id (frontendCat n)
  ∧ member (upsert id n store) id "news".
Proof.
  destruct (merge_categories id (store !! id) n) as (cs & Hcs & Hf & Hn & _).
  unfold member, upsert. rewrite lookup_insert_eq. eauto 10.
Qed.

Lemma upsert_member_mono id n (store : gmap string article) id' c :
  member store id' c → member (upsert id n store) id' c.
Proof.
  intros (a & cs0 & Ha & Hcs0 & Hc). unfold member, upsert.
  destruct (decide (id = id')) as [->|Hne].
  - rewrite lookup_insert_eq, Ha.
    destruct (merge_categories id' (Some a) n) as (cs & Hcs & _ & _ & Hsub).
    eauto 10.
  - rewrite lookup_insert_ne by done. eauto 10.
Qed.

Lemma upsert_all_member_mono category page now likes l :
  ∀ idx (store : gmap string article) id' c,
    member store id' c →
    member (upsert_all category page now likes idx store l).1 id' c.
Proof.
  induction l as [|n l IH]; intros idx store id' c Hm; simpl; [done|].
  specialize (IH (S idx) (upsert (article_id category page (now idx) idx n) n store)
                 id' c (upsert_member_mono _ _ _ _ _ Hm)).
  destruct (upsert_all _ _ _ _ _ _ l); done.
Qed.

Lemma upsert_all_member category page now likes l :
  ∀ idx (store : gmap string article) i n,
    l !! i = Some n →
    let id := article_id category page (now (idx + i)%nat) (idx + i) n in
    let store' := (upsert_all category page now likes idx store l).1 in
    member store' id (frontendCat n) ∧ member store' id "news".
Proof.
  induction l as [|m l IH]; intros idx store i n Hi; [done|].
  destruct i as [|i]; simpl in Hi.
  - injection Hi as ->. rewrite Nat.add_0_r. simpl.
    pose proof (upsert_member_new
                  (article_id category page (now idx) idx n) n store) as [Hf Hn].
    pose proof (upsert_all_member_mono category page now likes l (S idx) _ _ _ Hf).
    pose proof (upsert_all_member_mono category page now likes l (S idx) _ _ _ Hn).
    destruct (upsert_all _ _ _ _ _ _ l); done.
  - specialize (IH (S idx)
                   (upsert (article_id category page (now idx) idx m) m store)
                   i n Hi).
    replace (idx + S i)%nat with (S idx + i)%nat by lia. simpl.
    simpl in IH. destruct (upsert_all _ _ _ _ _ _ l); done.
Qed.

Lemma upsert_all_ids category page now likes l :
  ∀ idx (store : gmap string article),
    (upsert_all category page now likes idx store l).2
    = imap (λ i n, make_item category
                     (article_id category page (now (idx + i)%nat) (idx + i) n)
                     likes n) l.
Proof.
  induction l as [|n l IH]; intros idx store; simpl; [done|].
  specialize (IH (S idx) (upsert (article_id category page (now idx) idx n) n store)).
  destruct (upsert_all _ _ _ _ _ _ l) as [s its]. simpl in *.
  rewrite Nat.add_0_r. f_equal. rewrite IH.
  apply imap_ext. intros i x _. simpl.
  replace (idx + S i)%nat with (S (idx + i)) by lia. done.
Qed.

(** C5 (as amended).  When the list endpoint upserts an article, each of
    [title], [summary], [cover], [publishedAt] and [url] takes the incoming
    value when that value is truthy and keeps the stored one otherwise;
    [source] does the same and ends as the empty string when both are
    falsy.  So an empty incoming value never erases a populated stored
    one, and a second upsert of the same sighting under the same
    identifier leaves the catalogue unchanged. *)
Theorem upsert_merge_policy (id : string) (n : sighting)
    (store : gmap string article) :
  let existing := store !! id in
  let a := merge id existing n in
  upsert id n store !! id = Some a
  ∧ Forall (λ '(incoming, stored),
            (truthy (incoming (s_raw n)) = true →
               stored a = incoming (s_raw n))
            ∧ (truthy (incoming (s_raw n)) = false →
               stored a = existing ≫= stored))
      [(n_title, a_title); (n_description, a_summary);
       (n_urlToImage, a_cover); (n_publishedAt, a_publishedAt);
       (n_url, a_url)]
  ∧ (truthy (n_source (s_raw n)) = true → a_source a = n_source (s_raw n))
  ∧ (truthy (n_source (s_raw n)) = false →
       a_source a = if truthy (existing ≫= a_source)
                    then existing ≫= a_source else Some "")
  ∧ upsert id n (upsert id n store) = upsert id n store.
Proof.
  intros existing a. split; [apply lookup_insert_eq|].
  split.
  { repeat constructor; simpl; intros Hin;
      first [apply js_or_truthy | apply js_or_falsy]; exact Hin. }
  split; [|split; [|apply upsert_idem]].
  - intros Hin. simpl. unfold js_or at 2. rewrite Hin.
    apply js_or_truthy, Hin.
  - intros Hin. simpl. unfold js_or. rewrite Hin.
    destruct (truthy (existing ≫= a_source)); reflexivity.
Qed.

Lemma upsert_merge_policy_witness :
  let id := sha1 Sample.url_a in
  let store : gmap string article := {[ id := Sample.old_article ]} in
  let n := tag "technology" (Sample.raw None (Some Sample.url_a) None) in
  truthy (n_title (s_raw n)) = false
  ∧ a_title (merge id (store !! id) n) = Some "Old title".
Proof.
  intros id store n. split; [reflexivity|].
  destruct (upsert_merge_policy id n store) as (_ & Hf & _).
  apply Forall_cons_1 in Hf as [[_ Hkeep] _].
  rewrite Hkeep by reflexivity.
  unfold store. rewrite lookup_singleton_eq. reflexivity.
Defined.

(** C5, the claim as written fails: with a populated stored title and a
    populated incoming title, the stored title is replaced by the incoming
    one. *)
Lemma upsert_incoming_title_wins :
  let id := sha1 Sample.url_a in
  let store : gmap string article := {[ id := Sample.old_article ]} in
  truthy (a_title Sample.old_article) = true
  ∧ truthy (n_title (s_raw Sample.new_sighting)) = true
  ∧ (upsert id Sample.new_sighting store !! id) ≫= a_title = Some "New title"
  ∧ (upsert id Sample.new_sighting store !! id) ≫= a_title
    ≠ a_title Sample.old_article.
Proof.
  intros id store. unfold upsert. rewrite lookup_insert_eq.
  unfold store. rewrite lookup_singleton_eq.
  repeat split; discriminate.
Qed.

(** ** The list endpoint *)

Section ListEndpoint.
Variable getTime : string → Z.
Variable toISOString : Z → string.

Lemma listing_store category page now st all :
  (listing category page now st all).1
  = (upsert_all category page now (likesDB st) 0 (articleStore st) all).1.
Proof.
  unfold listing. destruct (upsert_all _ _ _ _ _ _ all). reflexivity.
Qed.

Lemma listing_items category page now st all :
  (listing category page now st all).2
  = let '(store, its) :=
      upsert_all category page now (likesDB st) 0 (articleStore st) all in
    if decide (category = "news") then its
    else filter (λ it, in_category store category it = true) its.
Proof.
  unfold listing. destruct (upsert_all _ _ _ _ _ _ all). reflexivity.
Qed.

Lemma api_news_fetched feed now st rq all :
  collect getTime feed (rq_category rq) (rq_q rq) = Some all →
  api_news getTime toISOString feed now st rq
  = ({| articleStore :=
          (listing (rq_category rq) (rq_page rq) now st all).1;
        likesDB := likesDB st;
        commentsDB := commentsDB st |},
     paginate (listing (rq_category rq) (rq_page rq) now st all).2
              (rq_page rq) (rq_pageSize rq)).
Proof.
  intros Hc. unfold api_news. rewrite Hc.
  destruct (listing _ _ _ _ all). reflexivity.
Qed.

Lemma api_news_failed feed now st rq :
  collect getTime feed (rq_category rq) (rq_q rq) = None →
  api_news getTime toISOString feed now st rq
  = (st, {| items := sample toISOString (rq_category rq) now;
            totalResults := 2 |}).
Proof. intros Hc. unfold api_news. rewrite Hc. reflexivity. Qed.
End ListEndpoint.




(** ** Article likes *)






Lemma inherited_own {V} (m : gmap string V) id v :
  m !! id = Some v → inherited m id = false.
Proof. intros H. unfold inherited. by rewrite H. Qed.

Lemma inherited_other {V} (m : gmap string V) id :
  id ∉ proto_keys → inherited m id = false.
Proof.
  intros Hid. unfold inherited. destruct (m !! id); [done|].
  by apply bool_decide_eq_false_2.
Qed.

Lemma inherited_member {V} (m : gmap string V) id :
  m !! id = None → id ∈ proto_keys → inherited m id = true.
Proof.
  intros Hm Hid. unfold inherited. rewrite Hm.
  by apply bool_decide_eq_true_2.
Qed.

Lemma inherited_empty {V} id :
  id ∉ proto_keys → inherited (∅ : gmap string V) id = false.
Proof.
  intros Hid. unfold inherited. rewrite lookup_empty.
  by apply bool_decide_eq_false_2.
Qed.


















(** ** Comments *)

Lemma truthy_sha1 s : truthy (Some (sha1 s)) = true.
Proof. apply truthy_Some_ne, sha1_nonempty. Qed.

Lemma trim_empty : trim "" = "".
Proof. reflexivity. Qed.



Section Comments.
Variable toISOString : Z → string.

Lemma addComment_unauthorized st id username text now :
  truthy username = false →
  addComment toISOString st id username text now = (st, Status 401 "请先登录").
Proof. intros H. unfold addComment. rewrite H. reflexivity. Qed.

Lemma addComment_blank st id username text now :
  truthy username = true →
  trim (default "" text) = "" →
  addComment toISOString st id username text now
  = (st, Status 400 "评论不能为空").
Proof.
  intros Hu Ht. unfold addComment. rewrite Hu, Ht. simpl.
  rewrite orb_true_r. reflexivity.
Qed.

Lemma addComment_ok st id c s t now :
  trim t ≠ "" →
  let u := String c s in
  let it := {| c_id := Some (comment_key id u (toISOString now) (trim t));
               c_username := u;
               c_text := trim t;
               c_createdAt := toISOString now;
               c_likedBy := Some [];
               c_likes := Some 0%Z |} in
  addComment toISOString st id (Some u) (Some t) now
  = ({| articleStore := articleStore st;
        likesDB := likesDB st;
        commentsDB :=
          <[id := default [] (commentsDB st !! id) ++ [it]]> (commentsDB st) |},
     Json it).
Proof.
  intros Ht u it. unfold addComment.
  assert (truthy (Some t) = true) as Ht'.
  { apply truthy_Some_ne. intros ->. by apply Ht. }
  apply truthy_Some_ne in Ht.
  change (truthy (Some u)) with true.
  change (default "" (Some t)) with t. change (default "" (Some u)) with u.
  cbn [negb]. rewrite Ht', Ht. reflexivity.
Qed.

Lemma upgrade_with_id id (it : comment) :
  truthy (c_id it) = true → upgrade id it = it.
Proof. intros H. unfold upgrade. by rewrite H. Qed.

Lemma upgrade_truthy id it : truthy (c_id (upgrade id it)) = true.
Proof.
  unfold upgrade. destruct (truthy (c_id it)) eqn:E; [done|].
  apply truthy_sha1.
Qed.

Lemma upgrade_idem id its :
  map (upgrade id) (map (upgrade id) its) = map (upgrade id) its.
Proof.
  rewrite map_map. apply map_ext. intros it.
  apply upgrade_with_id, upgrade_truthy.
Qed.

Lemma listComments_stored st id username its :
  commentsDB st !! id = Some its →
  listComments st id username
  = ({| articleStore := articleStore st;
        likesDB := likesDB st;
        commentsDB := <[id := map (upgrade id) its]> (commentsDB st) |},
     map (view username) (map (upgrade id) its)).
Proof. intros H. unfold listComments. by rewrite H. Qed.

Lemma listComments_none st id username :
  commentsDB st !! id = None → listComments st id username = (st, []).
Proof. intros H. unfold listComments. by rewrite H. Qed.

(** A second read changes nothing and answers the same. *)
Lemma listComments_stable st id username :
  let res := listComments st id username in
  listComments res.1 id username = res.
Proof.
  destruct (commentsDB st !! id) as [its|] eqn:E.
  - rewrite (listComments_stored _ _ _ _ E). cbn [fst].
    rewrite (listComments_stored _ _ _ (map (upgrade id) its))
      by apply lookup_insert_eq.
    cbn [articleStore likesDB commentsDB].
    by rewrite upgrade_idem, insert_insert_eq.
  - rewrite (listComments_none _ _ _ E). cbn [fst].
    by apply listComments_none.
Qed.

End Comments.



(** C2.  The first read of the comments of an article gives a stored
    comment without identifier the SHA-1 of its article, author, time and
    text as identifier and an empty liked-by list, and a second read
    changes nothing.  The like count that the read reports for such a
    comment is the length of the new liked-by list, that is 0: the count of
    the legacy field stays in the stored record but is not reported. *)
Theorem listComments_upgrade_reports_zero (st : server) (id : string)
    (viewer : option string) (pre post : list comment)
    (u t created : string) (legacy_likes : option Z) :
  let legacy :=
    {| c_id := None; c_username := u; c_text := t; c_createdAt := created;
       c_likedBy := None; c_likes := legacy_likes |} in
  let key := comment_key id u created t in
  commentsDB st !! id = Some (pre ++ legacy :: post) →
  let res := listComments st id viewer in
  (commentsDB res.1 !! id) ≫= (.!! length pre)
  = Some {| c_id := Some key; c_username := u; c_text := t;
            c_createdAt := created; c_likedBy := Some [];
            c_likes := legacy_likes |}
  ∧ res.2 !! length pre
    = Some {| v_id := Some key; v_username := u; v_text := t;
              v_createdAt := created; v_likedBy := Some [];
              v_likes := 0; v_liked := false |}
  ∧ listComments res.1 id viewer = res.
Proof.
  intros legacy key Hst res. subst res.
  split; [|split; [|apply listComments_stable]];
    rewrite (listComments_stored _ _ _ _ Hst).
  - cbn [fst commentsDB]. rewrite lookup_insert_eq. cbn [mbind option_bind].
    rewrite map_app, lookup_app_r; rewrite length_map; [|done].
    by rewrite Nat.sub_diag.
  - cbn [snd]. rewrite !map_app, lookup_app_r; rewrite !length_map; [|done].
    rewrite Nat.sub_diag. cbn. by destruct viewer as [[|??]|].
Qed.

Lemma listComments_upgrade_reports_zero_witness :
  let res := listComments Sample.legacy_server "a1" None in
  c_likes Sample.legacy_comment = Some 5%Z
  ∧ v_likes <$> res.2 !! 0%nat = Some 0%Z
  ∧ listComments res.1 "a1" None = res.
Proof.
  intros res. split; [reflexivity|].
  destruct (listComments_upgrade_reports_zero Sample.legacy_server "a1" None
              [] [] "bob" "hi" "2024-01-01T00:00:00.000Z" (Some 5%Z))
    as (_ & Hv & Hs).
  { apply lookup_singleton_eq. }
  split; [|exact Hs]. unfold res. simpl length in Hv. by rewrite Hv.
Defined.



(** ** The aggregate category: sort and URL filter *)

Lemma dedup_by_url_filter u seen l :
  u ≠ "" →
  filter (has_url u) (dedup_by_url seen l)
  = if decide (u ∈ seen) then [] else take 1 (filter (has_url u) l).
Proof.
  intros Hu. revert seen. induction l as [|a l IH]; intros seen.
  { simpl. by destruct (decide (u ∈ seen)). }
  cbn [dedup_by_url]. rewrite (filter_cons (has_url u) a l).
  destruct (decide (has_url u a)) as [Hua|Hua]; unfold has_url in Hua.
  - rewrite Hua. destruct u as [|c v]; [done|].
    destruct (decide (String c v ∈ seen)) as [Hin|Hin].
    + rewrite IH. by rewrite decide_True.
    + rewrite filter_cons, decide_True by done.
      rewrite IH. by rewrite decide_True by set_solver.
  - destruct (n_url (s_raw a)) as [[|c v]|] eqn:Ea; [apply IH| |apply IH].
    assert (u ≠ String c v) as Hne by congruence.
    destruct (decide (String c v ∈ seen)) as [Hin|Hin]; [apply IH|].
    rewrite filter_cons, decide_False by (unfold has_url; congruence).
    rewrite IH.
    destruct (decide (u ∈ seen)) as [Hs|Hs].
    + by rewrite decide_True by set_solver.
    + by rewrite decide_False by set_solver.
Qed.

Lemma dedup_by_url_truthy seen l :
  Forall (λ a, truthy (n_url (s_raw a)) = true) (dedup_by_url seen l).
Proof.
  revert seen. induction l as [|a l IH]; intros seen; simpl; [constructor|].
  destruct (n_url (s_raw a)) as [[|c v]|] eqn:Ea; try apply IH.
  destruct (decide (String c v ∈ seen)); [apply IH|].
  constructor; [by rewrite Ea | apply IH].
Qed.

Lemma dedup_by_url_sublist seen l : sublist (dedup_by_url seen l) l.
Proof.
  revert seen. induction l as [|a l IH]; intros seen; simpl; [constructor|].
  destruct (n_url (s_raw a)) as [[|c v]|]; try (apply sublist_cons, IH).
  destruct (decide (String c v ∈ seen));
    [apply sublist_cons, IH | apply sublist_skip, IH].
Qed.

Lemma dedup_by_url_fresh seen l a :
  a ∈ dedup_by_url seen l →
  ∃ u, n_url (s_raw a) = Some u ∧ u ∉ seen.
Proof.
  revert seen. induction l as [|b l IH]; intros seen; simpl.
  { by intros ?%elem_of_nil. }
  destruct (n_url (s_raw b)) as [[|c v]|] eqn:Eb; try apply IH.
  destruct (decide (String c v ∈ seen)) as [|Hn]; [apply IH|].
  intros [->|Hin]%elem_of_cons; [eauto|].
  destruct (IH _ Hin) as (u & Hu & Hnu). exists u. set_solver.
Qed.

Lemma dedup_by_url_NoDup seen l :
  NoDup (map (λ a, n_url (s_raw a)) (dedup_by_url seen l)).
Proof.
  revert seen. induction l as [|a l IH]; intros seen; simpl; [constructor|].
  destruct (n_url (s_raw a)) as [[|c v]|] eqn:Ea; try apply IH.
  destruct (decide (String c v ∈ seen)); [apply IH|].
  simpl. constructor; [|apply IH].
  rewrite Ea. intros (b & Hb & Hin)%list_elem_of_fmap.
  destruct (dedup_by_url_fresh _ _ _ Hin) as (u & Hu & Hnu).
  rewrite Hu in Hb. injection Hb as Hb. subst u. set_solver.
Qed.

Section Sorting.
Variable getTime : string → Z.

Lemma insert_by_date_perm x l : insert_by_date getTime x l ≡ₚ x :: l.
Proof.
  induction l as [|y l IH]; simpl; [done|].
  destruct (date_key getTime y <=? date_key getTime x)%Z; [done|].
  rewrite IH. apply Permutation_swap.
Qed.

Lemma sort_by_date_perm l : sort_by_date getTime l ≡ₚ l.
Proof.
  induction l as [|x l IH]; simpl; [done|].
  by rewrite insert_by_date_perm, IH.
Qed.

Lemma insert_by_date_sorted x l :
  StronglySorted (newer_first getTime) l →
  StronglySorted (newer_first getTime) (insert_by_date getTime x l).
Proof.
  induction 1 as [|y l Hs IH Hy]; simpl; [repeat constructor|].
  destruct (date_key getTime y <=? date_key getTime x)%Z eqn:E.
  - apply Z.leb_le in E. constructor; [by constructor|].
    constructor; [done|]. eapply Forall_impl; [exact Hy|].
    unfold newer_first. intros z ?. lia.
  - apply Z.leb_gt in E. constructor; [done|].
    rewrite insert_by_date_perm. constructor; [|done].
    unfold newer_first. lia.
Qed.

Lemma sort_by_date_sorted l :
  StronglySorted (newer_first getTime) (sort_by_date getTime l).
Proof.
  induction l as [|x l IH]; simpl; [constructor|].
  by apply insert_by_date_sorted.
Qed.

(** The sort is stable: records of equal date keep their order. *)
Lemma insert_by_date_stable k x l :
  filter (λ a, date_key getTime a = k) (insert_by_date getTime x l)
  = filter (λ a, date_key getTime a = k) (x :: l).
Proof.
  induction l as [|y l IH]; simpl; [done|].
  destruct (date_key getTime y <=? date_key getTime x)%Z eqn:E; [done|].
  apply Z.leb_gt in E.
  rewrite (filter_cons _ y), IH, !filter_cons.
  destruct (decide (date_key getTime y = k)), (decide (date_key getTime x = k));
    try done. lia.
Qed.

Lemma sort_by_date_stable k l :
  filter (λ a, date_key getTime a = k) (sort_by_date getTime l)
  = filter (λ a, date_key getTime a = k) l.
Proof.
  induction l as [|x l IH]; simpl; [done|].
  by rewrite insert_by_date_stable, !filter_cons, IH.
Qed.

Lemma sublist_sorted (l1 l2 : list sighting) :
  sublist l1 l2 →
  StronglySorted (newer_first getTime) l2 → StronglySorted (newer_first getTime) l1.
Proof.
  induction 1 as [|x l1 l2 Hsub IH|x l1 l2 Hsub IH]; intros Hs.
  - constructor.
  - inversion_clear Hs as [|?? Hs' Hx]. constructor; [by apply IH|].
    apply Forall_forall. intros z Hz.
    eapply Forall_forall in Hx; [exact Hx|]. eapply elem_of_sublist; eauto.
  - inversion_clear Hs. by apply IH.
Qed.

Lemma filter_comm {A} (P Q : A → Prop) `{!∀ x, Decision (P x)}
    `{!∀ x, Decision (Q x)} (l : list A) :
  filter P (filter Q l) = filter Q (filter P l).
Proof.
  induction l as [|x l IH]; [done|]. rewrite !filter_cons.
  destruct (decide (Q x)), (decide (P x)); rewrite ?filter_cons;
    repeat case_decide; try done; by rewrite IH.
Qed.

Lemma sorted_lookup (l : list sighting) i j a b :
  StronglySorted (newer_first getTime) l →
  (i < j)%nat → l !! i = Some a → l !! j = Some b →
  newer_first getTime a b.
Proof.
  intros Hs. revert i j. induction Hs as [|x l Hs IH Hx]; intros i j Hij Ha Hb.
  { by rewrite lookup_nil in Ha. }
  destruct j as [|j]; [lia|]. cbn in Hb. destruct i as [|i]; cbn in Ha.
  - injection Ha as <-. eapply Forall_forall in Hx; [exact Hx|].
    by eapply list_elem_of_lookup_2.
  - apply (IH i j); [lia|done|done].
Qed.

(** Of the sorted records that share a property, the first is at least as
    new as every other. *)
Lemma sorted_first_newest (P : sighting → Prop) `{!∀ x, Decision (P x)}
    (l : list sighting) a b :
  StronglySorted (newer_first getTime) l →
  a ∈ take 1 (filter P l) → b ∈ l → P b →
  newer_first getTime a b.
Proof.
  intros Hs Ha Hb HP.
  assert (StronglySorted (newer_first getTime) (filter P l)) as Hf.
  { eapply sublist_sorted; [apply sublist_filter|done]. }
  assert (b ∈ filter P l) as Hbf by (by apply list_elem_of_filter).
  destruct (filter P l) as [|x f]; [by apply elem_of_nil in Ha|].
  cbn in Ha. apply list_elem_of_singleton in Ha as ->.
  inversion_clear Hf as [|?? _ Hx].
  apply elem_of_cons in Hbf as [->|Hbf].
  - unfold newer_first. lia.
  - by eapply Forall_forall in Hx.
Qed.

End Sorting.

(** ** Pagination *)

Lemma js_slice_nil {A} (start fin : Z) : js_slice (@nil A) start fin = [].
Proof. unfold js_slice. by rewrite drop_nil, take_nil. Qed.

Lemma js_slice_page {A} (l : list A) (start size : Z) :
  (0 ≤ start)%Z → (0 ≤ size)%Z →
  js_slice l start (start + size)
  = take (Z.to_nat size) (drop (Z.to_nat start) l).
Proof.
  intros Hs Hn. unfold js_slice.
  destruct (Z.ltb_spec start 0); [lia|].
  destruct (Z.ltb_spec (start + size) 0); [lia|].
  destruct (Z_le_gt_dec (Z.of_nat (length l)) start) as [Hge|Hlt].
  - rewrite (Z.min_r start) by lia.
    rewrite (drop_ge l (Z.to_nat start)) by lia.
    rewrite (drop_ge l (Z.to_nat (Z.of_nat (length l)))) by lia.
    by rewrite !take_nil.
  - rewrite (Z.min_l start) by lia.
    destruct (Z_le_gt_dec (start + size) (Z.of_nat (length l))) as [Hin|Hout].
    + rewrite (Z.min_l (start + size)) by lia. f_equal. lia.
    + rewrite (Z.min_r (start + size)) by lia.
      rewrite (take_ge _ (Z.to_nat size)) by (rewrite length_drop; lia).
      apply take_ge. rewrite length_drop. lia.
Qed.

Lemma js_slice_Forall {A} (P : A → Prop) (l : list A) (start fin : Z) :
  Forall P l → Forall P (js_slice l start fin).
Proof. intros H. unfold js_slice. by apply Forall_take, Forall_drop. Qed.

Lemma filter_all {A} (P : A → Prop) `{∀ x, Decision (P x)} (l : list A) :
  Forall P l → filter P l = l.
Proof.
  induction 1 as [|x l Hx Hl IH]; [done|].
  by rewrite filter_cons, decide_True, IH.
Qed.

(** ** Items of the list endpoint *)

Lemma upsert_all_urls category page now likes l :
  ∀ idx (store : gmap string article),
    map i_url (upsert_all category page now likes idx store l).2
    = map (λ n, n_url (s_raw n)) l.
Proof.
  intros idx store. rewrite upsert_all_ids. revert idx.
  induction l as [|n l IH]; intros idx; [done|].
  cbn [imap map]. f_equal. rewrite <- (IH (S idx)). f_equal.
  apply imap_ext. intros i x _. simpl. do 3 f_equal; lia.
Qed.

Lemma upsert_all_dates category page now likes l :
  ∀ idx (store : gmap string article),
    map i_publishedAt (upsert_all category page now likes idx store l).2
    = map (λ n, n_publishedAt (s_raw n)) l.
Proof.
  intros idx store. rewrite upsert_all_ids. revert idx.
  induction l as [|n l IH]; intros idx; [done|].
  cbn [imap map]. f_equal. rewrite <- (IH (S idx)). f_equal.
  apply imap_ext. intros i x _. simpl. do 3 f_equal; lia.
Qed.

Lemma listing_news page now st all :
  (listing "news" page now st all).2
  = imap (λ i n, make_item "news" (article_id "news" page (now i) i n)
                   (likesDB st) n) all.
Proof.
  rewrite listing_items.
  pose proof (upsert_all_ids "news" page now (likesDB st) all 0
                (articleStore st)) as H.
  destruct (upsert_all _ _ _ _ _ _ all) as [store its]. cbn [snd] in H.
  cbv beta iota. by destruct (decide ("news" = "news")).
Qed.

Lemma upsert_all_length category page now likes l idx
    (store : gmap string article) :
  length (upsert_all category page now likes idx store l).2 = length l.
Proof. by rewrite upsert_all_ids, length_imap. Qed.

Lemma length_filter_url (its : list item) (l : list sighting) u :
  map i_url its = map (λ n, n_url (s_raw n)) l →
  length (filter (λ it, i_url it = Some u) its)
  = length (filter (has_url u) l).
Proof.
  revert l. induction its as [|it its IH]; intros [|n l] Heq;
    try discriminate; [done|].
  injection Heq as Hu Hrest. rewrite !filter_cons.
  destruct (decide (i_url it = Some u)) as [Hi|Hi],
           (decide (has_url u n)) as [Hn|Hn];
    unfold has_url in Hn; simpl; rewrite ?(IH l) by done;
    try done; congruence.
Qed.

Lemma fetch_all_elem feed q cat l a :
  cat ∈ categoriesToFetch →
  feed cat q 25%N = Some l →
  a ∈ l →
  tag cat a ∈ fetch_all feed q.
Proof.
  intros Hcat Hfeed Ha. unfold fetch_all.
  apply list_elem_of_In, in_concat.
  exists (map (tag cat) l). split.
  - apply in_map_iff. exists cat. rewrite Hfeed.
    split; [done|by apply list_elem_of_In].
  - apply in_map, list_elem_of_In, Ha.
Qed.

Lemma fetch_all_down feed q :
  (∀ cat k, feed cat q k = None) → fetch_all feed q = [].
Proof.
  intros H. unfold fetch_all, categoriesToFetch. simpl. by rewrite !H.
Qed.

Lemma upstream_category_default category :
  category ∉ proto_keys →
  upstream_category category = default "general" (categoryMap category).
Proof.
  intros Hc. unfold upstream_category.
  destruct (categoryMap category); [done|].
  by rewrite bool_decide_eq_false_2.
Qed.

Lemma upstream_category_mapped category :
  category ∈ ["tech"; "business"; "world"; "sports"] →
  upstream_category category = default "general" (categoryMap category).
Proof.
  intros Hc.
  repeat (apply elem_of_cons in Hc as [->|Hc]; [reflexivity|]).
  by apply elem_of_nil in Hc.
Qed.

Lemma frontendCat_tag category a :
  category ∈ ["tech"; "business"; "world"; "sports"] →
  frontendCat (tag (default "general" (categoryMap category)) a) = category.
Proof.
  intros H. repeat (apply elem_of_cons in H as [->|H]); try done.
  by apply elem_of_nil in H.
Qed.

(** C3.  When every fetch of the provider fails, the list endpoint still
    answers with success, and for a single category the answer holds the
    two placeholder items.  For the aggregate category ["news"] each
    failed fetch counts as an empty result, so the answer has no item at
    all and [totalResults] is 0: the placeholders are not used. *)
Theorem api_news_provider_down (getTime : string → Z) (toISOString : Z → string)
    (feed : FeedSource) (now : nat → Z) (st : server)
    (category q : string) (page pageSize : Z) :
  (∀ cat k, feed cat q k = None) →
  let rq c := {| rq_category := c; rq_q := q;
                 rq_page := page; rq_pageSize := pageSize |} in
  (api_news getTime toISOString feed now st (rq "news")).2
  = {| items := []; totalResults := 0 |}
  ∧ articleStore (api_news getTime toISOString feed now st (rq "news")).1
    = articleStore st
  ∧ (category ≠ "news" →
       api_news getTime toISOString feed now st (rq category)
       = (st, {| items := sample toISOString category now;
                 totalResults := 2 |})
       ∧ length (sample toISOString category now) = 2%nat).
Proof.
  intros Hdown rq.
  assert (collect getTime feed "news" q = Some []) as Hnews.
  { unfold collect. rewrite decide_True by done.
    by rewrite fetch_all_down. }
  split; [|split].
  - rewrite (api_news_fetched getTime toISOString feed now st (rq "news")
               [] Hnews). cbn [snd rq rq_category rq_page rq_pageSize].
    change (listing "news" page now st []).2 with (@nil item).
    unfold paginate. by rewrite js_slice_nil.
  - by rewrite (api_news_fetched getTime toISOString feed now st (rq "news")
                  [] Hnews).
  - intros Hc. split; [|done]. apply api_news_failed.
    unfold collect. cbn [rq_category rq_q rq].
    rewrite decide_False by done. by rewrite Hdown.
Qed.

Lemma api_news_provider_down_witness :
  (api_news IsoDate.getTime IsoDate.toISOString Sample.feed_down Sample.clock
     empty_server (Sample.news "news")).2
  = {| items := []; totalResults := 0 |}.
Proof.
  exact (proj1 (api_news_provider_down IsoDate.getTime IsoDate.toISOString
                  Sample.feed_down Sample.clock empty_server "tech" "" 1 10
                  (λ _ _, eq_refl))).
Defined.

(** C9.  The list endpoint answers with the slice of the filtered items
    from [(page - 1) * pageSize] to [(page - 1) * pageSize + pageSize] and
    with [totalResults] the number of all filtered items, whatever the
    page.  For [page >= 1] the slice is the [pageSize] items after the
    first [(page - 1) * pageSize]; a page beyond the end gives no item.
    With 25 filtered items and a page size of 10, page 1 gives the items
    0 to 9 and page 3 the five items 20 to 24, with [totalResults] 25. *)
Theorem paginate_slices (getTime : string → Z) (toISOString : Z → string)
    (filteredItems : list item) (page pageSize : Z) :
  let startIdx := ((page - 1) * pageSize)%Z in
  totalResults (paginate filteredItems page pageSize) = length filteredItems
  ∧ items (paginate filteredItems page pageSize)
    = js_slice filteredItems startIdx (startIdx + pageSize)
  ∧ ((1 ≤ page)%Z → (0 ≤ pageSize)%Z →
       items (paginate filteredItems page pageSize)
       = take (Z.to_nat pageSize) (drop (Z.to_nat startIdx) filteredItems))
  ∧ ((1 ≤ page)%Z → (0 ≤ pageSize)%Z →
       (Z.of_nat (length filteredItems) ≤ startIdx)%Z →
       items (paginate filteredItems page pageSize) = [])
  ∧ (length filteredItems = 25%nat →
       items (paginate filteredItems 1 10) = take 10 filteredItems
       ∧ items (paginate filteredItems 3 10) = drop 20 filteredItems
       ∧ length (items (paginate filteredItems 3 10)) = 5%nat
       ∧ totalResults (paginate filteredItems 1 10) = 25%nat
       ∧ totalResults (paginate filteredItems 3 10) = 25%nat)
  ∧ (∀ feed now st rq all,
       collect getTime feed (rq_category rq) (rq_q rq) = Some all →
       (api_news getTime toISOString feed now st rq).2
       = paginate (listing (rq_category rq) (rq_page rq) now st all).2
                  (rq_page rq) (rq_pageSize rq)).
Proof.
  intros startIdx. split; [done|]. split; [done|].
  assert (∀ l p n, (1 ≤ p)%Z → (0 ≤ n)%Z →
            items (paginate l p n)
            = take (Z.to_nat n) (drop (Z.to_nat ((p - 1) * n)) l)) as Hpage.
  { intros l p n Hp Hn. unfold paginate. cbn [items].
    apply js_slice_page; nia. }
  split; [intros; by apply Hpage|].
  split.
  { intros Hp Hn Hend. rewrite Hpage by done.
    rewrite drop_ge by (fold startIdx; lia). apply take_nil. }
  split.
  { intros Hlen. rewrite !Hpage by lia. cbn [totalResults paginate].
    change (Z.to_nat ((1 - 1) * 10)) with 0%nat.
    change (Z.to_nat ((3 - 1) * 10)) with 20%nat.
    change (Z.to_nat 10) with 10%nat. rewrite drop_0.
    rewrite (take_ge (drop 20 filteredItems)) by (rewrite length_drop; lia).
    rewrite length_drop. repeat split; lia. }
  intros feed now st rq all Hc.
  by rewrite (api_news_fetched _ _ _ _ _ _ _ Hc).
Qed.

Lemma paginate_slices_witness :
  length Sample.items25 = 25%nat
  ∧ items (paginate Sample.items25 1 10) = take 10 Sample.items25
  ∧ items (paginate Sample.items25 3 10) = drop 20 Sample.items25
  ∧ length (items (paginate Sample.items25 3 10)) = 5%nat
  ∧ totalResults (paginate Sample.items25 3 10) = 25%nat.
Proof.
  split; [reflexivity|].
  destruct (paginate_slices IsoDate.getTime IsoDate.toISOString
              Sample.items25 1 10) as (_ & _ & _ & _ & H & _).
  destruct (H eq_refl) as (H1 & H3 & H5 & _ & Ht).
  exact (conj H1 (conj H3 (conj H5 Ht))).
Defined.

(** C8 (as amended).  For the aggregate category the fetched records are
    sorted by published time stamp, newest first, by a stable sort in
    which a missing time stamp counts as the epoch (0); then, in that
    order, every record whose URL was already seen is dropped.  So the
    items of the listing come in descending order of their time stamps,
    an item without time stamp standing where the time 0 stands; no URL
    occurs twice; and for every URL the record kept is the first one with
    that URL in the sorted order, which is the newest of the fetched
    records with that URL and, among equally new ones, the one fetched
    first.  When two upstream categories both return a record with the
    same URL, the listing has exactly one item with that URL.  The time
    stamps of the provider are valid dates: [getTime] gives the time of
    each. *)
Theorem aggregate_sorted_and_deduplicated (getTime : string → Z)
    (feed : FeedSource) (q : string) (page : Z) (now : nat → Z) (st : server) :
  let time_of (publishedAt : option string) : Z :=
    match publishedAt with
    | Some (String _ _ as s) => getTime s
    | _ => 0%Z
    end in
  let fetched := fetch_all feed q in
  let sorted := sort_by_date getTime fetched in
  let all := dedup_by_url ∅ sorted in
  let its := (listing "news" page now st all).2 in
  collect getTime feed "news" q = Some all
  ∧ sorted ≡ₚ fetched
  ∧ (∀ i j a b,
       (i < j)%nat → sorted !! i = Some a → sorted !! j = Some b →
       (time_of (n_publishedAt (s_raw b))
        ≤ time_of (n_publishedAt (s_raw a)))%Z)
  ∧ (∀ k, filter (λ a, time_of (n_publishedAt (s_raw a)) = k) sorted
          = filter (λ a, time_of (n_publishedAt (s_raw a)) = k) fetched)
  ∧ sublist all sorted
  ∧ NoDup (map (λ a, n_url (s_raw a)) all)
  ∧ (∀ u, u ≠ "" →
          filter (has_url u) all = take 1 (filter (has_url u) sorted))
  ∧ (∀ u a b, u ≠ "" →
       a ∈ all → has_url u a → b ∈ fetched → has_url u b →
       (time_of (n_publishedAt (s_raw b))
        ≤ time_of (n_publishedAt (s_raw a)))%Z)
  ∧ (∀ u a, u ≠ "" →
       a ∈ all → has_url u a →
       take 1 (filter (has_url u)
                 (filter (λ b, time_of (n_publishedAt (s_raw b))
                               = time_of (n_publishedAt (s_raw a)))
                    fetched))
       = [a])
  ∧ map i_url its = map (λ a, n_url (s_raw a)) all
  ∧ map i_publishedAt its = map (λ a, n_publishedAt (s_raw a)) all
  ∧ (∀ i j x y,
       (i < j)%nat → its !! i = Some x → its !! j = Some y →
       (time_of (i_publishedAt y) ≤ time_of (i_publishedAt x))%Z)
  ∧ (∀ i j x y sx sy,
       (i < j)%nat → its !! i = Some x → its !! j = Some y →
       i_publishedAt x = Some sx → sx ≠ "" →
       i_publishedAt y = Some sy → sy ≠ "" →
       (getTime sy ≤ getTime sx)%Z)
  ∧ (∀ i j x y sy,
       (i < j)%nat → its !! i = Some x → its !! j = Some y →
       truthy (i_publishedAt x) = false →
       i_publishedAt y = Some sy → sy ≠ "" →
       (getTime sy ≤ 0)%Z)
  ∧ (∀ i j x y sx,
       (i < j)%nat → its !! i = Some x → its !! j = Some y →
       i_publishedAt x = Some sx → sx ≠ "" →
       truthy (i_publishedAt y) = false →
       (0 ≤ getTime sx)%Z)
  ∧ (∀ c1 c2 l1 l2 a1 a2 u,
       c1 ∈ categoriesToFetch → c2 ∈ categoriesToFetch →
       feed c1 q 25%N = Some l1 → feed c2 q 25%N = Some l2 →
       a1 ∈ l1 → a2 ∈ l2 →
       n_url a1 = Some u → n_url a2 = Some u → u ≠ "" →
       length (filter (λ it, i_url it = Some u) its) = 1%nat).
Proof.
  intros time_of fetched sorted all its.
  assert (map i_url its = map (λ a, n_url (s_raw a)) all) as Hurls.
  { unfold its. rewrite listing_items.
    pose proof (upsert_all_urls "news" page now (likesDB st) all 0
                  (articleStore st)) as H.
    destruct (upsert_all _ _ _ _ _ _ all) as [store0 its0].
    cbn [snd] in H. cbv beta iota.
    by destruct (decide ("news" = "news")). }
  assert (map i_publishedAt its = map (λ a, n_publishedAt (s_raw a)) all)
    as Hdates.
  { unfold its. rewrite listing_items.
    pose proof (upsert_all_dates "news" page now (likesDB st) all 0
                  (articleStore st)) as H.
    destruct (upsert_all _ _ _ _ _ _ all) as [store0 its0].
    cbn [snd] in H. cbv beta iota.
    by destruct (decide ("news" = "news")). }
  assert (∀ u, u ≠ "" →
            filter (has_url u) all = take 1 (filter (has_url u) sorted))
    as Hfirst.
  { intros u Hu. unfold all. rewrite dedup_by_url_filter by done.
    destruct (decide (u ∈ (∅ : gset string))); [set_solver|done]. }
  assert (StronglySorted (newer_first getTime) all) as Hall.
  { eapply sublist_sorted; [apply dedup_by_url_sublist|].
    apply sort_by_date_sorted. }
  assert (∀ i j x y,
            (i < j)%nat → its !! i = Some x → its !! j = Some y →
            (time_of (i_publishedAt y) ≤ time_of (i_publishedAt x))%Z)
    as Hits.
  { intros i j x y Hij Hx Hy.
    assert (∀ k z, its !! k = Some z →
              ∃ a, all !! k = Some a
                   ∧ n_publishedAt (s_raw a) = i_publishedAt z) as Hback.
    { intros k z Hz.
      assert (map i_publishedAt its !! k = Some (i_publishedAt z)) as Hk.
      { change (map ?f ?l) with (f <$> l). by rewrite list_lookup_fmap, Hz. }
      rewrite Hdates in Hk. change (map ?f ?l) with (f <$> l) in Hk.
      rewrite list_lookup_fmap in Hk.
      destruct (all !! k) as [a|]; [|done]. injection Hk as Hk. eauto. }
    destruct (Hback i x Hx) as (a & Ha & <-).
    destruct (Hback j y Hy) as (b & Hb & <-).
    exact (sorted_lookup getTime all i j a b Hall Hij Ha Hb). }
  split; [unfold collect; by destruct (decide ("news" = "news"))|].
  split; [apply sort_by_date_perm|].
  split.
  { intros i j a b Hij Ha Hb.
    exact (sorted_lookup getTime sorted i j a b
             (sort_by_date_sorted getTime fetched) Hij Ha Hb). }
  split; [intros k; exact (sort_by_date_stable getTime k fetched)|].
  split; [apply dedup_by_url_sublist|].
  split; [apply dedup_by_url_NoDup|].
  split; [exact Hfirst|].
  split.
  { intros u a b Hu Ha Hua Hb Hub.
    assert (a ∈ take 1 (filter (has_url u) sorted)) as Ha'.
    { rewrite <- Hfirst by done. by apply list_elem_of_filter. }
    assert (b ∈ sorted) as Hb'.
    { unfold sorted. by rewrite sort_by_date_perm. }
    exact (sorted_first_newest getTime (has_url u) sorted a b
             (sort_by_date_sorted getTime fetched) Ha' Hb' Hub). }
  split.
  { intros u a Hu Ha Hua.
    assert (a ∈ take 1 (filter (has_url u) sorted)) as Ha'.
    { rewrite <- Hfirst by done. by apply list_elem_of_filter. }
    pose proof (sort_by_date_stable getTime (date_key getTime a) fetched)
      as Hst.
    change (filter (λ b, time_of (n_publishedAt (s_raw b))
                         = time_of (n_publishedAt (s_raw a))) fetched)
      with (filter (λ b, date_key getTime b = date_key getTime a) fetched).
    rewrite <- Hst. fold sorted. rewrite filter_comm.
    destruct (filter (has_url u) sorted) as [|x f];
      [by apply elem_of_nil in Ha'|].
    cbn in Ha'. apply list_elem_of_singleton in Ha' as <-.
    rewrite filter_cons. by rewrite decide_True. }
  split; [exact Hurls|].
  split; [exact Hdates|].
  split; [exact Hits|].
  split.
  { intros i j x y sx sy Hij Hx Hy Ex Hsx Ey Hsy.
    specialize (Hits i j x y Hij Hx Hy). rewrite Ex, Ey in Hits.
    subst time_of. cbv beta iota in Hits.
    destruct sx; [done|]. by destruct sy. }
  split.
  { intros i j x y sy Hij Hx Hy Ex Ey Hsy.
    specialize (Hits i j x y Hij Hx Hy). rewrite Ey in Hits.
    subst time_of. cbv beta iota in Hits.
    destruct sy; [done|]. by destruct (i_publishedAt x) as [[|??]|]. }
  split.
  { intros i j x y sx Hij Hx Hy Ex Hsx Ey.
    specialize (Hits i j x y Hij Hx Hy). rewrite Ex in Hits.
    subst time_of. cbv beta iota in Hits.
    destruct sx; [done|]. by destruct (i_publishedAt y) as [[|??]|]. }
  intros c1 c2 l1 l2 a1 a2 u Hc1 _ Hf1 _ Ha1 _ Hu1 _ Hu.
  rewrite (length_filter_url its all u Hurls), Hfirst by done.
  assert (tag c1 a1 ∈ filter (has_url u) sorted) as Hin.
  { apply list_elem_of_filter. split; [exact Hu1|].
    unfold sorted. rewrite sort_by_date_perm.
    by eapply fetch_all_elem. }
  destruct (filter (has_url u) sorted); [by apply elem_of_nil in Hin|done].
Qed.

Lemma aggregate_sorted_and_deduplicated_witness :
  let all := dedup_by_url ∅
               (sort_by_date IsoDate.getTime (fetch_all Sample.feed_a "")) in
  let its := (listing "news" 1 Sample.clock empty_server all).2 in
  length (filter (λ it, i_url it = Some Sample.url_a) its) = 1%nat.
Proof.
  destruct (aggregate_sorted_and_deduplicated IsoDate.getTime Sample.feed_a
              "" 1 Sample.clock empty_server)
    as (_ & _ & _ & _ & _ & _ & _ & _ & _ & _ & _ & _ & _ & _ & _ & H).
  pose (a := Sample.raw (Some "A") (Some Sample.url_a)
                        (Some "2024-01-01T00:00:00Z")).
  apply (H "technology" "business" [a] [a] a a Sample.url_a);
    try reflexivity; try discriminate;
    apply list_elem_of_In; simpl; tauto.
Defined.

(** C8, the claim as written fails where it has the first occurrence of a
    URL win: the records are sorted before the URL filter, so that of two
    records with the same URL the newer one is kept, also when it was
    fetched second.  Here the technology feed, which is fetched first,
    has the article with an older time stamp than the business feed: the
    listing has the record of the business feed. *)
Lemma aggregate_keeps_newest_not_first_fetched :
  let first := tag "technology" Sample.older in
  let second := tag "business" Sample.newer in
  let its := (listing "news" 1 Sample.clock empty_server [second]).2 in
  fetch_all Sample.feed_two "" = [first; second]
  ∧ n_url (s_raw first) = n_url (s_raw second)
  ∧ collect IsoDate.getTime Sample.feed_two "news" "" = Some [second]
  ∧ map i_title its = [Some "A, updated"]
  ∧ map i_category its = ["business"]
  ∧ map i_publishedAt its = [Some "2024-01-02T00:00:00Z"].
Proof.
  intros first second its.
  assert (fetch_all Sample.feed_two "" = [first; second]) as Hf
    by reflexivity.
  split; [exact Hf|]. split; [reflexivity|]. split.
  { unfold collect. rewrite decide_True by done. rewrite Hf.
    cbn [sort_by_date insert_by_date].
    assert ((date_key IsoDate.getTime second
             <=? date_key IsoDate.getTime first)%Z = false) as ->
      by (vm_compute; reflexivity).
    cbn [dedup_by_url second first tag s_raw n_url Sample.newer Sample.older
         Sample.raw].
    unfold Sample.url_a.
    rewrite decide_False by set_solver.
    rewrite decide_True by set_solver. reflexivity. }
  unfold its. rewrite listing_news. cbn [imap map].
  repeat split.
Qed.

(** C10.  In a listing of the aggregate category every record that is
    catalogued and every item that is answered has a non-empty URL: the
    records without URL are dropped before.  In a listing of one of the
    categories [tech], [business], [world] and [sports] every record of
    the provider gives an item, and a record without URL gives, at its
    position, an item with the identifier [local_] followed by the clock
    reading, which the catalogue holds under that category. *)
Theorem url_less_records (getTime : string → Z) (toISOString : Z → string)
    (feed : FeedSource) (now : nat → Z) (st : server) (rq : news_query) :
  (rq_category rq = "news" →
     (∀ all, collect getTime feed (rq_category rq) (rq_q rq) = Some all →
             Forall (λ a, truthy (n_url (s_raw a)) = true) all)
     ∧ Forall (λ it, truthy (i_url it) = true)
              (items (api_news getTime toISOString feed now st rq).2))
  ∧ (∀ l,
       rq_category rq ∈ ["tech"; "business"; "world"; "sports"] →
       feed (default "general" (categoryMap (rq_category rq))) (rq_q rq) 50%N
       = Some l →
       let res := api_news getTime toISOString feed now st rq in
       ∃ its,
         res.2 = paginate its (rq_page rq) (rq_pageSize rq)
         ∧ length its = length l
         ∧ ∀ idx a,
             l !! idx = Some a →
             truthy (n_url a) = false →
             ∃ it, its !! idx = Some it
                   ∧ i_id it = "local_" +:+ pretty (now idx)
                   ∧ i_url it = n_url a
                   ∧ member (articleStore res.1) (i_id it) (rq_category rq)).
Proof.
  split.
  - intros Hnews.
    assert (collect getTime feed (rq_category rq) (rq_q rq)
            = Some (dedup_by_url ∅
                      (sort_by_date getTime (fetch_all feed (rq_q rq)))))
      as Hc.
    { unfold collect. by rewrite decide_True. }
    split.
    + intros all Hall. rewrite Hc in Hall. injection Hall as <-.
      apply dedup_by_url_truthy.
    + rewrite (api_news_fetched _ _ _ _ _ _ _ Hc). cbn [snd paginate items].
      apply js_slice_Forall. rewrite listing_items.
      pose proof (upsert_all_urls (rq_category rq) (rq_page rq) now
                    (likesDB st)
                    (dedup_by_url ∅
                       (sort_by_date getTime (fetch_all feed (rq_q rq))))
                    0 (articleStore st)) as Hurls.
      destruct (upsert_all _ _ _ _ _ _ _) as [store its]. cbn [snd] in Hurls.
      cbv beta iota. destruct (decide (rq_category rq = "news")); [|done].
      pose proof (dedup_by_url_truthy ∅
                    (sort_by_date getTime (fetch_all feed (rq_q rq)))) as Ht.
      apply (Forall_fmap (λ a, n_url (s_raw a))
               (λ u, truthy u = true)) in Ht.
      change (map ?f ?l) with (f <$> l) in Hurls. rewrite <- Hurls in Ht.
      by apply Forall_fmap in Ht.
  - intros l Hcat Hfeed res.
    set (apiCat := default "general" (categoryMap (rq_category rq))) in *.
    assert (rq_category rq ≠ "news") as Hne.
    { intros E. rewrite E in Hcat.
      repeat (apply elem_of_cons in Hcat as [?|Hcat]; [done|]).
      by apply elem_of_nil in Hcat. }
    assert (collect getTime feed (rq_category rq) (rq_q rq)
            = Some (map (tag apiCat) l)) as Hc.
    { unfold collect. rewrite decide_False by done.
      rewrite upstream_category_mapped by done. fold apiCat.
      by rewrite Hfeed. }
    exists (listing (rq_category rq) (rq_page rq) now st (map (tag apiCat) l)).2.
    unfold res. rewrite (api_news_fetched _ _ _ _ _ _ _ Hc).
    split; [done|]. cbn [fst articleStore].
    rewrite listing_store, listing_items.
    pose proof (upsert_all_ids (rq_category rq) (rq_page rq) now (likesDB st)
                  (map (tag apiCat) l) 0 (articleStore st)) as Hids.
    pose proof (upsert_all_member (rq_category rq) (rq_page rq) now (likesDB st)
                  (map (tag apiCat) l) 0 (articleStore st)) as Hmem.
    destruct (upsert_all _ _ _ _ _ _ _) as [store its].
    cbn [fst snd] in *. cbv beta iota.
    destruct (decide (rq_category rq = "news")); [done|].
    assert (∀ idx a, l !! idx = Some a →
              member store
                (article_id (rq_category rq) (rq_page rq) (now idx) idx
                   (tag apiCat a)) (rq_category rq)) as Hm.
    { intros idx a Ha.
      destruct (Hmem idx (tag apiCat a)) as [Hf _].
      { by rewrite list_lookup_fmap, Ha. }
      unfold apiCat in Hf at 2. by rewrite frontendCat_tag in Hf. }
    rewrite filter_all.
    + split; [by rewrite Hids, length_imap, length_map|].
      intros idx a Ha Hurl. eexists. split.
      { rewrite Hids, list_lookup_imap, list_lookup_fmap, Ha. reflexivity. }
      cbn [i_id i_url make_item s_raw tag].
      rewrite article_id_makeId. cbn [s_raw tag].
      rewrite makeIdFromUrl_falsy by done.
      split; [done|]. split; [done|].
      specialize (Hm idx a Ha). rewrite article_id_makeId in Hm.
      cbn [s_raw tag] in Hm. by rewrite makeIdFromUrl_falsy in Hm.
    + rewrite Hids. apply Forall_forall. intros it Hit.
      apply list_elem_of_lookup in Hit as [idx Hit].
      rewrite list_lookup_imap, list_lookup_fmap in Hit.
      destruct (l !! idx) as [a|] eqn:Ha; [|done].
      injection Hit as <-.
      destruct (Hm idx a Ha) as (r & cs & Hr & Hcs & Hin).
      unfold in_category. cbn [i_id make_item]. rewrite Hr, Hcs.
      by apply bool_decide_eq_true.
Qed.

Lemma url_less_records_witness :
  let res := api_news IsoDate.getTime IsoDate.toISOString Sample.feed_nourl
               Sample.clock empty_server (Sample.news "tech") in
  ∃ its,
    res.2 = paginate its 1 10
    ∧ length its = 2%nat
    ∧ ∃ it, its !! 1%nat = Some it
            ∧ i_id it = "local_" +:+ pretty (Sample.clock 1)
            ∧ i_url it = None.
Proof.
  intros res.
  destruct (url_less_records IsoDate.getTime IsoDate.toISOString
              Sample.feed_nourl Sample.clock empty_server (Sample.news "tech"))
    as [_ H].
  destruct (H _ ltac:(apply list_elem_of_In; simpl; tauto) eq_refl)
    as (its & Hres & Hlen & Hits).
  destruct (Hits 1%nat _ eq_refl eq_refl) as (it & Hit & Hid & Hurl & _).
  exists its. split; [exact Hres|]. split; [exact Hlen|].
  exists it. split; [exact Hit|]. split; [exact Hid|exact Hurl].
Defined.

(** * Further properties of the server and of the client *)

(** ** Comment likes *)

Lemma remove_first_length u l :
  u ∈ l → length (remove_first u l) = (length l - 1)%nat.
Proof.
  induction l as [|x l IH]; intros Hin; [by apply elem_of_nil in Hin|].
  simpl. destruct (decide (x = u)) as [|Hne]; [lia|].
  apply elem_of_cons in Hin as [->|Hin]; [done|].
  simpl. rewrite IH by done.
  destruct l; [by apply elem_of_nil in Hin|simpl; lia].
Qed.

Lemma remove_first_elem u l x :
  x ∈ remove_first u l → x ∈ l.
Proof.
  induction l as [|y l IH]; simpl; [done|].
  destruct (decide (y = u)); [set_solver|].
  intros [->|Hin]%elem_of_cons; set_solver.
Qed.

Lemma remove_first_NoDup u l :
  NoDup l → NoDup (remove_first u l) ∧ u ∉ remove_first u l.
Proof.
  induction 1 as [|x l Hx Hl IH]; simpl.
  - split; [constructor|apply not_elem_of_nil].
  - destruct (decide (x = u)) as [->|Hne]; [done|].
    destruct IH as [IH1 IH2]. split.
    + constructor; [|done]. intros Hin. by apply remove_first_elem in Hin.
    + intros [->|Hin]%elem_of_cons; done.
Qed.

Lemma remove_first_snoc u l : u ∉ l → remove_first u (l ++ [u]) = l.
Proof.
  induction l as [|x l IH]; intros Hu; simpl.
  - by rewrite decide_True.
  - rewrite decide_False by set_solver. f_equal. apply IH. set_solver.
Qed.

Lemma toggleCommentLike_found st id cid c s its i x :
  commentsDB st !! id = Some its →
  its !! i = Some x →
  c_id x = Some cid →
  (∀ j y, its !! j = Some y → (j < i)%nat → c_id y ≠ Some cid) →
  toggleCommentLike st id cid (Some (String c s))
  = ({| articleStore := articleStore st;
        likesDB := likesDB st;
        commentsDB :=
          <[id := <[i := (toggle_comment (String c s) x).1]> its]>
            (commentsDB st) |},
     Json (toggle_comment (String c s) x).2).
Proof.
  intros Hits Hi Hx Hfirst. unfold toggleCommentLike.
  rewrite (inherited_own _ _ _ Hits), Hits.
  cbn [from_option Datatypes.id].
  assert (list_find (λ y, c_id y = Some cid) its = Some (i, x)) as ->.
  { apply list_find_Some. eauto. }
  by destruct (toggle_comment (String c s) x).
Qed.

Lemma toggleCommentLike_missing st id cid c s :
  inherited (commentsDB st) id = false →
  Forall (λ y, c_id y ≠ Some cid) (default [] (commentsDB st !! id)) →
  toggleCommentLike st id cid (Some (String c s))
  = (st, Status 404 "comment not found").
Proof.
  intros Hi Hall. unfold toggleCommentLike. rewrite Hi.
  assert (list_find (λ y, c_id y = Some cid)
            (default [] (commentsDB st !! id)) = None) as ->.
  { by apply list_find_None. }
  reflexivity.
Qed.

(** X1.  A like on a comment by a signed-in user toggles the user in the
    liked-by list of the first comment with that identifier: a user in
    the list loses the first occurrence and the answer is
    [liked = false], another user is appended and the answer is
    [liked = true]; the answered count and the stored [likes] field are
    the length of the new list, and the other comments stay as they are.
    A list without duplicates stays without duplicates, and the user is
    in the new list exactly when the user was not in the old one. *)
Theorem toggleCommentLike_toggles (st : server) (id cid : string) (c : ascii)
    (s : string) (its : list comment) (i : nat) (x : comment) :
  let u := String c s in
  commentsDB st !! id = Some its →
  its !! i = Some x →
  c_id x = Some cid →
  (∀ j y, its !! j = Some y → (j < i)%nat → c_id y ≠ Some cid) →
  let l := default [] (c_likedBy x) in
  let l' := if decide (u ∈ l) then remove_first u l else l ++ [u] in
  let res := toggleCommentLike st id cid (Some u) in
  res.2 = Json (Z.of_nat (length l'), negb (bool_decide (u ∈ l)))
  ∧ commentsDB res.1 !! id
    = Some (<[i := {| c_id := c_id x; c_username := c_username x;
                      c_text := c_text x; c_createdAt := c_createdAt x;
                      c_likedBy := Some l';
                      c_likes := Some (Z.of_nat (length l')) |}]> its)
  ∧ articleStore res.1 = articleStore st
  ∧ likesDB res.1 = likesDB st
  ∧ (u ∈ l → length l' = (length l - 1)%nat)
  ∧ (u ∉ l → length l' = (length l + 1)%nat)
  ∧ (NoDup l → NoDup l' ∧ (u ∈ l' ↔ u ∉ l)).
Proof.
  intros u Hits Hi Hx Hfirst l l' res. subst res.
  unfold u. rewrite (toggleCommentLike_found _ _ _ _ _ _ _ _ Hits Hi Hx Hfirst).
  fold u. unfold toggle_comment. fold l.
  cbn [fst snd commentsDB articleStore likesDB]. rewrite lookup_insert_eq.
  subst l'. destruct (decide (u ∈ l)) as [Hin|Hin].
  - rewrite bool_decide_eq_true_2 by done. cbn [fst snd negb].
    repeat split; try done.
    + by apply remove_first_length.
    + by apply remove_first_NoDup.
    + intros Hu. by apply remove_first_NoDup in Hu.
  - rewrite bool_decide_eq_false_2 by done. cbn [fst snd negb].
    repeat split; try done.
    + rewrite length_app. simpl. lia.
    + apply NoDup_app. repeat split; [done| |apply NoDup_singleton].
      intros y Hy ->%list_elem_of_singleton. done.
    + set_solver.
Qed.

Lemma toggleCommentLike_toggles_witness :
  (toggleCommentLike Fixture.commented "a1" "c1" (Some "dan")).2
  = Json (2%Z, true).
Proof.
  refine (proj1 (toggleCommentLike_toggles Fixture.commented "a1" "c1"
                   "d" "an" [Fixture.c1; Fixture.c2] 0 Fixture.c1
                   _ eq_refl eq_refl _)).
  - apply lookup_singleton_eq.
  - intros j y _ Hj. lia.
Defined.

(** X2.  A like on a comment without user name is refused with status 401.
    For a signed-in user and an article [id] that is not the name of an
    inherited member of the comment data without comments of its own, a
    like on a comment identifier that no comment of the article has (in
    particular for an article without comments) is refused with status
    404.  For an [id] that is such an inherited member the request fails
    with status 500.  In all these cases nothing is changed. *)
Theorem toggleCommentLike_rejects (st : server) (id cid : string)
    (name : option string) :
  (truthy name = false →
     toggleCommentLike st id cid name = (st, Status 401 "请先登录")
     ∧ AuthError (toggleCommentLike st id cid name).2)
  ∧ (truthy name = true →
     inherited (commentsDB st) id = false →
     Forall (λ y, c_id y ≠ Some cid) (default [] (commentsDB st !! id)) →
     toggleCommentLike st id cid name = (st, Status 404 "comment not found")
     ∧ NotFoundError (toggleCommentLike st id cid name).2)
  ∧ (truthy name = true →
     commentsDB st !! id = None →
     id ∉ proto_keys →
     toggleCommentLike st id cid name = (st, Status 404 "comment not found")
     ∧ NotFoundError (toggleCommentLike st id cid name).2)
  ∧ (truthy name = true →
     commentsDB st !! id = None →
     id ∈ proto_keys →
     toggleCommentLike st id cid name = (st, uncaught)
     ∧ ¬ NotFoundError (toggleCommentLike st id cid name).2).
Proof.
  split; [|split; [|split]].
  - intros Hn.
    assert (toggleCommentLike st id cid name = (st, Status 401 "请先登录"))
      as -> by (by destruct name as [[|??]|]).
    split; [done|by eexists].
  - intros Hn Hi Hall. destruct name as [[|c s]|]; try done.
    rewrite toggleCommentLike_missing by done. split; [done|by eexists].
  - intros Hn Hnone Hid. destruct name as [[|c s]|]; try done.
    rewrite toggleCommentLike_missing; [split; [done|by eexists]| |].
    + by apply inherited_other.
    + rewrite Hnone. constructor.
  - intros Hn Hnone Hid. destruct name as [[|c s]|]; try done.
    unfold toggleCommentLike. rewrite inherited_member by done.
    split; [done|]. intros [msg Hmsg]. discriminate.
Qed.

Lemma toggleCommentLike_rejects_witness :
  NotFoundError (toggleCommentLike empty_server "a1" "c1" (Some "dan")).2
  ∧ toggleCommentLike empty_server "constructor" "c1" (Some "dan")
    = (empty_server, uncaught)
  ∧ AuthError (toggleCommentLike Fixture.commented "a1" "c1" None).2.
Proof.
  pose proof (toggleCommentLike_rejects empty_server "a1" "c1" (Some "dan"))
    as (_ & _ & H404 & _).
  pose proof (toggleCommentLike_rejects empty_server "constructor" "c1"
                (Some "dan")) as (_ & _ & _ & H500).
  pose proof (toggleCommentLike_rejects Fixture.commented "a1" "c1" None)
    as (H401 & _).
  split; [|split].
  - refine (proj2 (H404 eq_refl _ _)); [apply lookup_empty|].
    unfold proto_keys. set_solver.
  - refine (proj1 (H500 eq_refl _ _)); [apply lookup_empty|].
    unfold proto_keys. set_solver.
  - exact (proj2 (H401 eq_refl)).
Defined.

(** X3.  Two likes in a row on the same comment by a user who was not in
    its liked-by list cancel: the second answers [liked = false] with the
    count of the start, and the comment is stored with the liked-by list
    of the start and with that count in its [likes] field. *)
Theorem toggleCommentLike_twice (st : server) (id cid : string) (c : ascii)
    (s : string) (its : list comment) (i : nat) (x : comment) :
  let u := String c s in
  commentsDB st !! id = Some its →
  its !! i = Some x →
  c_id x = Some cid →
  (∀ j y, its !! j = Some y → (j < i)%nat → c_id y ≠ Some cid) →
  let l := default [] (c_likedBy x) in
  u ∉ l →
  let st1 := (toggleCommentLike st id cid (Some u)).1 in
  let res := toggleCommentLike st1 id cid (Some u) in
  res.2 = Json (Z.of_nat (length l), false)
  ∧ commentsDB res.1 !! id
    = Some (<[i := {| c_id := c_id x; c_username := c_username x;
                      c_text := c_text x; c_createdAt := c_createdAt x;
                      c_likedBy := Some l;
                      c_likes := Some (Z.of_nat (length l)) |}]> its).
Proof.
  intros u Hits Hi Hx Hfirst l Hu st1 res. subst res st1. unfold u.
  rewrite (toggleCommentLike_found _ _ _ _ _ _ _ _ Hits Hi Hx Hfirst).
  fold u. cbn [fst].
  assert ((toggle_comment u x).1
          = {| c_id := c_id x; c_username := c_username x;
               c_text := c_text x; c_createdAt := c_createdAt x;
               c_likedBy := Some (l ++ [u]);
               c_likes := Some (Z.of_nat (length (l ++ [u]))) |}) as ->.
  { unfold toggle_comment. fold l. by rewrite decide_False. }
  unfold u.
  erewrite (toggleCommentLike_found _ id cid c s (<[i := _]> its) i);
    [|apply lookup_insert_eq
     |apply list_lookup_insert_eq; by eapply lookup_lt_Some
     |done
     |intros j y Hj Hlt; rewrite list_lookup_insert_ne in Hj by lia; eauto].
  fold u. unfold toggle_comment. cbn [c_likedBy from_option Datatypes.id].
  rewrite decide_True by set_solver. rewrite remove_first_snoc by done.
  cbn [fst snd commentsDB c_id c_username c_text c_createdAt].
  split; [done|].
  by rewrite lookup_insert_eq, list_insert_insert_eq.
Qed.

Lemma toggleCommentLike_twice_witness :
  let st1 := (toggleCommentLike Fixture.commented "a1" "c1" (Some "dan")).1 in
  (toggleCommentLike st1 "a1" "c1" (Some "dan")).2 = Json (1%Z, false).
Proof.
  refine (proj1 (toggleCommentLike_twice Fixture.commented "a1" "c1"
                   "d" "an" [Fixture.c1; Fixture.c2] 0 Fixture.c1
                   _ eq_refl eq_refl _ _)).
  - apply lookup_singleton_eq.
  - intros j y _ Hj. lia.
  - simpl. intros [E|H]%elem_of_cons; [discriminate|by apply elem_of_nil in H].
Defined.

(** X4.  The comment list reports, for a comment with a non-empty
    identifier, the length of its liked-by list, and the count of the
    legacy [likes] field only while the comment has no liked-by list.
    After a like on the comment the list reports the length of the new
    liked-by list, whatever the legacy count was, and marks the comment
    as liked for a viewer who is in that list. *)
Theorem listComments_after_like (st : server) (id cid : string) (c : ascii)
    (s : string) (its : list comment) (i : nat) (x : comment)
    (viewer : option string) :
  let u := String c s in
  commentsDB st !! id = Some its →
  its !! i = Some x →
  c_id x = Some cid →
  cid ≠ "" →
  (∀ j y, its !! j = Some y → (j < i)%nat → c_id y ≠ Some cid) →
  let l := default [] (c_likedBy x) in
  let l' := if decide (u ∈ l) then remove_first u l else l ++ [u] in
  let st' := (toggleCommentLike st id cid (Some u)).1 in
  v_likes <$> (listComments st id viewer).2 !! i
  = Some (match c_likedBy x with
          | Some l0 => Z.of_nat (length l0)
          | None => default 0%Z (c_likes x)
          end)
  ∧ v_likes <$> (listComments st' id viewer).2 !! i
    = Some (Z.of_nat (length l'))
  ∧ v_liked <$> (listComments st' id (Some u)).2 !! i
    = Some (bool_decide (u ∈ l')).
Proof.
  intros u Hits Hi Hx Hcid Hfirst l l' st'.
  assert (truthy (c_id x) = true) as Hid.
  { rewrite Hx. by apply truthy_Some_ne. }
  split.
  { rewrite (listComments_stored _ _ _ _ Hits). cbn [snd].
    rewrite map_map.
    change (map ?f ?k) with (f <$> k).
    rewrite list_lookup_fmap, Hi. cbn [fmap option_fmap option_map].
    by rewrite upgrade_with_id. }
  assert (commentsDB st' !! id
          = Some (<[i := {| c_id := c_id x; c_username := c_username x;
                            c_text := c_text x; c_createdAt := c_createdAt x;
                            c_likedBy := Some l';
                            c_likes := Some (Z.of_nat (length l')) |}]> its))
    as Hst'.
  { apply (toggleCommentLike_toggles st id cid c s its i x Hits Hi Hx Hfirst). }
  assert (∀ w, (listComments st' id w).2 !! i
               = Some (view w {| c_id := c_id x; c_username := c_username x;
                                 c_text := c_text x;
                                 c_createdAt := c_createdAt x;
                                 c_likedBy := Some l';
                                 c_likes := Some (Z.of_nat (length l')) |}))
    as Hview.
  { intros w. rewrite (listComments_stored _ _ _ _ Hst'). cbn [snd].
    rewrite map_map. change (map ?f ?k) with (f <$> k).
    rewrite list_lookup_fmap, list_lookup_insert_eq
      by (by eapply lookup_lt_Some).
    cbn [fmap option_fmap option_map]. by rewrite upgrade_with_id. }
  split; rewrite Hview; [done|].
  cbn [fmap option_fmap option_map view v_liked c_likedBy]. done.
Qed.

Lemma listComments_after_like_witness :
  let st' := (toggleCommentLike Fixture.commented "a1" "c2" (Some "dan")).1 in
  v_likes <$> (listComments Fixture.commented "a1" None).2 !! 1%nat
  = Some 7%Z
  ∧ v_likes <$> (listComments st' "a1" None).2 !! 1%nat = Some 1%Z.
Proof.
  intros st'.
  destruct (listComments_after_like Fixture.commented "a1" "c2" "d" "an"
              [Fixture.c1; Fixture.c2] 1 Fixture.c2 None)
    as (Hbefore & Hafter & _).
  - apply lookup_singleton_eq.
  - reflexivity.
  - reflexivity.
  - discriminate.
  - intros j y Hj Hlt. assert (j = 0%nat) as -> by lia.
    injection Hj as <-. discriminate.
  - exact (conj Hbefore Hafter).
Defined.

(** ** The catalogue under the list endpoint *)

Lemma upsert_keyed id n (store : gmap string article) : keyed (upsert id n store) id.
Proof. eexists. split; [apply lookup_insert_eq|done]. Qed.

Lemma upsert_keyed_mono id n (store : gmap string article) id' :
  keyed store id' → keyed (upsert id n store) id'.
Proof.
  intros (a & Ha & Hid). destruct (decide (id = id')) as [->|Hne].
  - apply upsert_keyed.
  - exists a. unfold upsert. by rewrite lookup_insert_ne.
Qed.

Lemma upsert_all_keyed_mono category page now likes l :
  ∀ idx (store : gmap string article) id',
    keyed store id' →
    keyed (upsert_all category page now likes idx store l).1 id'.
Proof.
  induction l as [|n l IH]; intros idx store id' Hk; simpl; [done|].
  specialize (IH (S idx)
                 (upsert (article_id category page (now idx) idx n) n store)
                 id' (upsert_keyed_mono _ _ _ _ Hk)).
  destruct (upsert_all _ _ _ _ _ _ l); done.
Qed.

Lemma upsert_all_keyed category page now likes l :
  ∀ idx (store : gmap string article) i n,
    l !! i = Some n →
    keyed (upsert_all category page now likes idx store l).1
          (article_id category page (now (idx + i)%nat) (idx + i) n).
Proof.
  induction l as [|m l IH]; intros idx store i n Hi; [done|].
  destruct i as [|i]; simpl in Hi.
  - injection Hi as ->. rewrite Nat.add_0_r. simpl.
    pose proof (upsert_all_keyed_mono category page now likes l (S idx) _ _
                  (upsert_keyed
                     (article_id category page (now idx) idx n) n store)).
    destruct (upsert_all _ _ _ _ _ _ l); done.
  - specialize (IH (S idx)
                   (upsert (article_id category page (now idx) idx m) m store)
                   i n Hi).
    replace (idx + S i)%nat with (S idx + i)%nat by lia. simpl.
    simpl in IH. destruct (upsert_all _ _ _ _ _ _ l); done.
Qed.

Lemma upsert_all_other category page now likes l :
  ∀ idx (store : gmap string article) k,
    (∀ i n, l !! i = Some n →
            article_id category page (now (idx + i)%nat) (idx + i) n ≠ k) →
    (upsert_all category page now likes idx store l).1 !! k = store !! k.
Proof.
  induction l as [|m l IH]; intros idx store k Hk; simpl; [done|].
  specialize (IH (S idx)
                 (upsert (article_id category page (now idx) idx m) m store) k).
  destruct (upsert_all _ _ _ _ _ _ l) as [store' its]. simpl in *.
  rewrite IH.
  - unfold upsert. apply lookup_insert_ne.
    specialize (Hk 0%nat m eq_refl). by rewrite Nat.add_0_r in Hk.
  - intros i n Hi. specialize (Hk (S i) n Hi).
    by replace (idx + S i)%nat with (S (idx + i)) in Hk by lia.
Qed.

Lemma js_slice_elem {A} (l : list A) (start fin : Z) x :
  x ∈ js_slice l start fin → x ∈ l.
Proof.
  intros Hx.
  assert (Forall (λ y, y ∈ l) (js_slice l start fin)) as Hall.
  { apply js_slice_Forall. by apply Forall_forall. }
  by eapply Forall_forall in Hall.
Qed.

Lemma listing_elem category page now st all it :
  it ∈ (listing category page now st all).2 →
  ∃ i n, all !! i = Some n
         ∧ it = make_item category
                  (article_id category page (now i) i n) (likesDB st) n.
Proof.
  rewrite listing_items.
  pose proof (upsert_all_ids category page now (likesDB st) all 0
                (articleStore st)) as Hids.
  destruct (upsert_all _ _ _ _ _ _ all) as [store its]. cbn [snd] in Hids.
  cbv beta iota. intros Hit.
  assert (it ∈ its) as Hin.
  { destruct (decide (category = "news")); [done|].
    by apply list_elem_of_filter in Hit as [_ ?]. }
  rewrite Hids in Hin. apply list_elem_of_lookup in Hin as [i Hi].
  rewrite list_lookup_imap in Hi.
  destruct (all !! i) as [n|] eqn:Hn; [|done].
  injection Hi as <-. eauto.
Qed.

Lemma local_not_inherited s : "local_" +:+ s ∉ proto_keys.
Proof.
  unfold proto_keys. rewrite !elem_of_cons, elem_of_nil. simpl.
  intros H. repeat (destruct H as [H|H]; [discriminate|]). done.
Qed.

(** X5.  Every item that the list endpoint answers from the records of
    the provider can be opened: the detail request for its identifier
    finds a record that carries this identifier, and reports the like
    count of the item.  The placeholder items that the endpoint answers
    when the provider fails are not catalogued: the catalogue stays as it
    was, and the detail request for a placeholder that it did not hold is
    answered with status 404.  A detail request for an identifier that the
    catalogue does not hold is answered with status 404, except for the
    names of the inherited members: for these the answer is a like count
    without any field of a record. *)
Theorem getArticle_of_listed (getTime : string → Z) (toISOString : Z → string)
    (feed : FeedSource) (now : nat → Z) (st : server) (rq : news_query) :
  let res := api_news getTime toISOString feed now st rq in
  (∀ all, collect getTime feed (rq_category rq) (rq_q rq) = Some all →
     ∀ it, it ∈ items res.2 →
           ∃ a, getArticle res.1 (i_id it) = Json (Some a, i_likes it)
                ∧ a_id a = i_id it)
  ∧ (collect getTime feed (rq_category rq) (rq_q rq) = None →
     res.1 = st
     ∧ items res.2 = sample toISOString (rq_category rq) now
     ∧ ∀ it, it ∈ items res.2 →
             articleStore st !! i_id it = None →
             NotFoundError (getArticle res.1 (i_id it)))
  ∧ (∀ id, articleStore res.1 !! id = None →
           id ∉ proto_keys →
           NotFoundError (getArticle res.1 id))
  ∧ (∀ id, articleStore res.1 !! id = None →
           id ∈ proto_keys →
           getArticle res.1 id = Json (None, like_count (likesDB res.1) id)).
Proof.
  intros res. subst res. split; [|split; [|split]].
  - intros all Hc. rewrite (api_news_fetched _ _ _ _ _ _ _ Hc).
    cbn [fst snd].
    intros it Hit. unfold paginate in Hit. cbn [items] in Hit.
    apply js_slice_elem, listing_elem in Hit as (i & n & Hn & ->).
    pose proof (upsert_all_keyed (rq_category rq) (rq_page rq) now
                  (likesDB st) all 0 (articleStore st) i n Hn)
      as (a & Ha & Hid).
    exists a. unfold getArticle. cbn [articleStore likesDB].
    rewrite listing_store. cbn [i_id i_likes make_item].
    simpl in Ha. by rewrite Ha.
  - intros Hc. rewrite (api_news_failed _ _ _ _ _ _ Hc). cbn [fst snd items].
    split; [done|]. split; [done|].
    intros it Hit Hnone. unfold getArticle. rewrite Hnone.
    rewrite bool_decide_eq_false_2; [by eexists|].
    unfold sample in Hit.
    repeat (apply elem_of_cons in Hit as [->|Hit];
            [apply local_not_inherited|]).
    by apply elem_of_nil in Hit.
  - intros id Hid Hk. unfold getArticle. rewrite Hid.
    rewrite bool_decide_eq_false_2 by done. by eexists.
  - intros id Hid Hk. unfold getArticle. rewrite Hid.
    by rewrite bool_decide_eq_true_2.
Qed.

Lemma getArticle_of_listed_witness :
  let n := tag "technology"
             (Sample.raw (Some "A") (Some Sample.url_a)
                         (Some "2024-01-01T00:00:00Z")) in
  let it := make_item "news" (article_id "news" 1 (Sample.clock 0) 0 n) ∅ n in
  let res := api_news IsoDate.getTime IsoDate.toISOString Sample.feed_a
               Sample.clock empty_server (Sample.news "news") in
  it ∈ items res.2
  ∧ ∃ a, getArticle res.1 (i_id it) = Json (Some a, i_likes it)
         ∧ a_id a = i_id it.
Proof.
  intros n it res.
  assert (collect IsoDate.getTime Sample.feed_a "news" "" = Some [n]) as Hc
    by reflexivity.
  assert (it ∈ items res.2) as Hit.
  { unfold res.
    rewrite (api_news_fetched IsoDate.getTime IsoDate.toISOString
               Sample.feed_a Sample.clock empty_server (Sample.news "news")
               [n] Hc).
    apply list_elem_of_here. }
  split; [exact Hit|].
  exact (proj1 (getArticle_of_listed IsoDate.getTime IsoDate.toISOString
                  Sample.feed_a Sample.clock empty_server (Sample.news "news"))
           [n] Hc it Hit).
Defined.

(** ** Accounts *)

Lemma register_fresh users c s c' s' :
  String c s ∉ map username users →
  register users (Some (String c s)) (Some (String c' s'))
  = (users ++ [{| username := String c s; password := String c' s' |}],
     Json "注册成功").
Proof.
  intros Hu. unfold register.
  assert (list_find (λ x, username x = String c s) users = None) as ->; [|done].
  apply list_find_None, Forall_forall. intros x Hx Hn. apply Hu.
  rewrite <- Hn. apply list_elem_of_In, in_map, list_elem_of_In, Hx.
Qed.

Lemma register_taken users c s c' s' :
  String c s ∈ map username users →
  register users (Some (String c s)) (Some (String c' s'))
  = (users, Status 400 "用户名已存在").
Proof.
  intros Hu. unfold register.
  apply list_elem_of_In, in_map_iff in Hu as (x & Hx & Hin).
  destruct (list_find_elem_of (λ y, username y = String c s) users x)
    as [[i y] ->]; [by apply list_elem_of_In|done|done].
Qed.

(** X6.  Registering a user name that no user has adds the account at the
    end, and the login with the same name and password then succeeds and
    answers the name; registering a taken name is refused with status 400
    and changes nothing.  User names stay distinct, and a login that
    succeeded before a registration succeeds after it with the same
    answer. *)
Theorem register_then_login (users : list user) (c : ascii) (s : string)
    (c' : ascii) (s' : string) :
  let u := String c s in
  let p := String c' s' in
  let res := register users (Some u) (Some p) in
  (u ∉ map username users →
     res = (users ++ [{| username := u; password := p |}], Json "注册成功")
     ∧ login res.1 (Some u) (Some p) = Json u)
  ∧ (u ∈ map username users → res.1 = users ∧ ValidationError res.2)
  ∧ (NoDup (map username users) → NoDup (map username res.1))
  ∧ (∀ n q x, login users n q = Json x → login res.1 n q = Json x).
Proof.
  intros u p res. subst res.
  destruct (decide (u ∈ map username users)) as [Hin|Hin].
  - unfold u, p. rewrite register_taken by done. cbn [fst snd].
    split; [done|]. split; [split; [done|by eexists]|]. done.
  - unfold u, p. rewrite register_fresh by done. cbn [fst snd]. fold u p.
    assert (list_find (λ x, Some (username x) = Some u
                            ∧ Some (password x) = Some p) users = None)
      as Hnone.
    { apply list_find_None, Forall_forall. intros x Hx [Hn _].
      apply Hin. injection Hn as <-.
      apply list_elem_of_In, in_map, list_elem_of_In, Hx. }
    split; [|split; [done|split]].
    + intros _. split; [done|]. unfold login.
      rewrite list_find_app_r by done. cbn.
      rewrite decide_True by done. done.
    + intros Hnd. rewrite map_app. apply NoDup_app. repeat split; [done| |].
      * intros y Hy ->%list_elem_of_singleton. done.
      * apply NoDup_singleton.
    + intros n q x. unfold login. intros Hlog.
      destruct (list_find (λ x0, Some (username x0) = n
                                 ∧ Some (password x0) = q) users)
        as [[i y]|] eqn:Hf; [|discriminate].
      by rewrite (list_find_app_l _ _ _ _ _ Hf).
Qed.

Lemma register_then_login_witness :
  let res := register Fixture.accounts (Some "eve") (Some "pw") in
  login res.1 (Some "eve") (Some "pw") = Json "eve"
  ∧ login res.1 (Some "bob") (Some "secret") = Json "bob".
Proof.
  intros res.
  destruct (register_then_login Fixture.accounts "e" "ve" "p" "w")
    as (Hfresh & _ & _ & Hkeep).
  split.
  - apply Hfresh. simpl.
    intros [E|H]%elem_of_cons; [discriminate|by apply elem_of_nil in H].
  - apply Hkeep. reflexivity.
Defined.

(** X7.  A registration without user name or without password is refused
    with status 400 and changes nothing, and a login is refused with
    status 401 exactly when no account has both the given name and the
    given password; a successful login answers the given name. *)
Theorem login_checks_credentials (users : list user) (name pass : option string) :
  ((truthy name = false ∨ truthy pass = false) →
     register users name pass = (users, Status 400 "缺少参数"))
  ∧ (AuthError (login users name pass)
     ↔ ∀ x, x ∈ users →
            ¬ (Some (username x) = name ∧ Some (password x) = pass))
  ∧ (∀ r, login users name pass = Json r → name = Some r).
Proof.
  split; [|split].
  - intros [H|H]; destruct name as [[|??]|], pass as [[|??]|]; done.
  - unfold login. split.
    + intros [msg Hmsg]. destruct (list_find _ users) as [[i y]|] eqn:Hf;
        [discriminate|].
      apply list_find_None in Hf. by apply Forall_forall.
    + intros Hall.
      assert (list_find (λ x, Some (username x) = name
                              ∧ Some (password x) = pass) users = None) as ->.
      { by apply list_find_None, Forall_forall. }
      by eexists.
  - intros r. unfold login.
    destruct (list_find _ users) as [[i y]|] eqn:Hf; [|done].
    apply list_find_Some in Hf as (_ & [Hn _] & _).
    intros [= <-]. done.
Qed.

Lemma login_checks_credentials_witness :
  AuthError (login Fixture.accounts (Some "bob") (Some "wrong")).
Proof.
  apply (login_checks_credentials Fixture.accounts (Some "bob") (Some "wrong")).
  intros x [->|H]%elem_of_cons; [|by apply elem_of_nil in H].
  intros [_ E]. discriminate.
Defined.

(** ** The trending endpoint *)

Lemma trend_all_keeps now likes l :
  ∀ idx (store : gmap string article) k a,
    store !! k = Some a →
    (trend_all now likes idx store l).1 !! k = Some a.
Proof.
  induction l as [|n l IH]; intros idx store k a Hk; simpl; [done|].
  set (id := trend_id (now idx) idx n).
  set (store1 := match store !! id with
                 | Some _ => store
                 | None => <[id := trend_article id n]> store
                 end).
  assert (store1 !! k = Some a) as Hk1.
  { unfold store1. destruct (store !! id) eqn:E; [done|].
    rewrite lookup_insert_ne; [done|]. intros ->. congruence. }
  specialize (IH (S idx) store1 k a Hk1).
  destruct (trend_all now likes (S idx) store1 l). done.
Qed.

Lemma trend_all_items now likes l :
  ∀ idx (store : gmap string article),
    (trend_all now likes idx store l).2
    = imap (λ i n, {| t_id := trend_id (now (idx + i)%nat) (idx + i) n;
                      t_title := n_title n; t_url := n_url n;
                      t_likes :=
                        like_count likes
                          (trend_id (now (idx + i)%nat) (idx + i) n) |}) l.
Proof.
  induction l as [|n l IH]; intros idx store; simpl; [done|].
  set (store1 := match store !! trend_id (now idx) idx n with
                 | Some _ => store
                 | None => _
                 end).
  specialize (IH (S idx) store1).
  destruct (trend_all now likes (S idx) store1 l) as [s its]. simpl in *.
  rewrite Nat.add_0_r. f_equal. rewrite IH.
  apply imap_ext. intros i x _. simpl.
  by replace (idx + S i)%nat with (S (idx + i)) by lia.
Qed.

Lemma trend_all_stored now likes l :
  ∀ idx (store : gmap string article) i n,
    l !! i = Some n →
    is_Some ((trend_all now likes idx store l).1
               !! trend_id (now (idx + i)%nat) (idx + i) n).
Proof.
  induction l as [|m l IH]; intros idx store i n Hi; [done|].
  simpl.
  set (id := trend_id (now idx) idx m).
  set (store1 := match store !! id with
                 | Some _ => store
                 | None => <[id := trend_article id m]> store
                 end).
  destruct i as [|i]; simpl in Hi.
  - injection Hi as <-. rewrite Nat.add_0_r. fold id.
    assert (is_Some (store1 !! id)) as [a Ha].
    { unfold store1. destruct (store !! id) eqn:E; [by rewrite E|].
      rewrite lookup_insert_eq. eauto. }
    pose proof (trend_all_keeps now likes l (S idx) store1 id a Ha).
    destruct (trend_all now likes (S idx) store1 l). simpl in *. eauto.
  - specialize (IH (S idx) store1 i n Hi).
    replace (idx + S i)%nat with (S idx + i)%nat by lia.
    destruct (trend_all now likes (S idx) store1 l). done.
Qed.

(** X8.  The trending endpoint never changes a record that the catalogue
    already holds, and never touches likes or comments.  When the
    provider answers, there is one item for each of its records, in
    order, each with the like count of its identifier, and the catalogue
    holds a record for each item; when the provider fails, the answer is
    the three fixed placeholder items and nothing is changed. *)
Theorem api_trending_keeps_records (feed : FeedSource) (now : nat → Z)
    (st : server) :
  let res := api_trending feed now st in
  (∀ k a, articleStore st !! k = Some a → articleStore res.1 !! k = Some a)
  ∧ likesDB res.1 = likesDB st
  ∧ commentsDB res.1 = commentsDB st
  ∧ (feed "technology" "" 10%N = None →
       res = (st, trend_sample) ∧ length res.2 = 3%nat)
  ∧ (∀ l, feed "technology" "" 10%N = Some l →
          map t_url res.2 = map n_url l
          ∧ ∀ it, it ∈ res.2 →
                  is_Some (articleStore res.1 !! t_id it)
                  ∧ t_likes it = like_count (likesDB st) (t_id it)).
Proof.
  intros res. subst res. unfold api_trending.
  destruct (feed "technology" "" 10%N) as [l|] eqn:Hfeed.
  - pose proof (trend_all_keeps now (likesDB st) l 0 (articleStore st)) as Hk.
    pose proof (trend_all_items now (likesDB st) l 0 (articleStore st)) as Hi.
    pose proof (trend_all_stored now (likesDB st) l 0 (articleStore st)) as Hs.
    destruct (trend_all now (likesDB st) 0 (articleStore st) l) as [store its].
    cbn [fst snd articleStore likesDB commentsDB] in *.
    split; [exact Hk|]. split; [done|]. split; [done|]. split; [done|].
    intros l' [= <-]. split.
    + rewrite Hi. clear. generalize 0%nat.
      induction l as [|n l IH]; intros k; [done|].
      cbn [imap map]. f_equal. rewrite <- (IH (S k)). f_equal.
      apply imap_ext. intros i x _. simpl.
      by replace (k + S i)%nat with (S (k + i)) by lia.
    + intros it Hit. rewrite Hi in Hit.
      apply list_elem_of_lookup in Hit as [i Hit].
      rewrite list_lookup_imap in Hit.
      destruct (l !! i) as [n|] eqn:Hn; [|done]. injection Hit as <-.
      split; [|done]. apply (Hs i n Hn).
  - cbn [fst snd]. repeat split; try done.
Qed.

Lemma api_trending_keeps_records_witness :
  let st := {| articleStore := {[ "k" := Sample.old_article ]};
               likesDB := ∅; commentsDB := ∅ |} in
  articleStore (api_trending Sample.feed_a Sample.clock st).1 !! "k"
  = Some Sample.old_article
  ∧ (api_trending Sample.feed_down Sample.clock st).2 = trend_sample.
Proof.
  intros st. split.
  - apply (api_trending_keeps_records Sample.feed_a Sample.clock st).
    apply lookup_singleton_eq.
  - destruct (api_trending_keeps_records Sample.feed_down Sample.clock st)
      as (_ & _ & _ & H & _).
    destruct (H eq_refl) as [-> _]. reflexivity.
Defined.

(** ** The provider *)

(** X9.  The aggregate category gathers exactly the records of the
    upstream categories whose fetch succeeded, each tagged with its
    category: a failed fetch counts as an empty answer, so the fan-out
    never fails, whatever the provider does. *)
Theorem fetch_all_ignores_failures (getTime : string → Z) (feed : FeedSource)
    (q : string) :
  fetch_all feed q = fetch_all (λ cat q' k, Some (default [] (feed cat q' k))) q
  ∧ (∀ cat a, tag cat a ∈ fetch_all feed q
              ↔ cat ∈ categoriesToFetch
                ∧ ∃ l, feed cat q 25%N = Some l ∧ a ∈ l)
  ∧ is_Some (collect getTime feed "news" q).
Proof.
  split; [|split].
  - unfold fetch_all. f_equal. apply map_ext. intros cat.
    by destruct (feed cat q 25%N).
  - intros cat a. split.
    + unfold fetch_all. intros Hin.
      apply list_elem_of_In, in_concat in Hin as (l' & Hl' & Ha).
      apply in_map_iff in Hl' as (cat' & <- & Hcat').
      destruct (feed cat' q 25%N) as [l|] eqn:Hf; [|done].
      apply in_map_iff in Ha as (a' & Ha' & Hin').
      injection Ha' as -> ->.
      split; [by apply list_elem_of_In|].
      exists l. split; [done|by apply list_elem_of_In].
    + intros (Hcat & l & Hf & Ha). by eapply fetch_all_elem.
  - unfold collect. rewrite decide_True by done. eauto.
Qed.

(** X10.  The two category tables are inverse to each other: a category of
    the site maps to an upstream category exactly when that upstream
    category maps back to it. *)
Theorem categoryMap_reverseMap (category cat : string) :
  categoryMap category = Some cat ↔ reverseMap cat = Some category.
Proof.
  unfold categoryMap, reverseMap. split; intros H;
    repeat case_decide; simplify_eq; done.
Qed.

(** ** Categories of the catalogue *)

Lemma frontendCat_known n : frontendCat n ∈ known_categories.
Proof.
  unfold frontendCat, reverseMap, known_categories.
  repeat case_decide; simpl; set_solver.
Qed.

Lemma upsert_known id n (store : gmap string article) :
  known store → known (upsert id n store).
Proof.
  intros Hk id' a cs c Ha Hcs Hc. unfold upsert in Ha.
  destruct (decide (id = id')) as [<-|Hne].
  - rewrite lookup_insert_eq in Ha. injection Ha as <-.
    injection Hcs as <-. rewrite elem_of_array_from_set in Hc.
    apply elem_of_app in Hc as [Hc|Hc].
    + destruct (store !! id) as [e|] eqn:He; [|by apply elem_of_nil in Hc].
      simpl in Hc. destruct (a_categories e) as [cs0|] eqn:Hcs0;
        [|by apply elem_of_nil in Hc].
      by eapply Hk.
    + apply elem_of_cons in Hc as [->|Hc]; [apply frontendCat_known|].
      apply list_elem_of_singleton in Hc as ->. unfold known_categories.
      set_solver.
  - rewrite lookup_insert_ne in Ha by done. by eapply Hk.
Qed.

Lemma upsert_all_known category page now likes l :
  ∀ idx (store : gmap string article),
    known store → known (upsert_all category page now likes idx store l).1.
Proof.
  induction l as [|n l IH]; intros idx store Hk; simpl; [done|].
  specialize (IH (S idx)
                 (upsert (article_id category page (now idx) idx n) n store)
                 (upsert_known _ _ _ Hk)).
  destruct (upsert_all _ _ _ _ _ _ l); done.
Qed.

Lemma reverseMap_inherited_text k : reverseMap (inherited_text k) = None.
Proof.
  unfold reverseMap, inherited_text.
  destruct (decide (k = "__proto__")); repeat case_decide; try done;
    simpl in *; discriminate.
Qed.

Lemma categoryMap_unknown category :
  category ∉ known_categories → categoryMap category = None.
Proof.
  intros Hcat. unfold categoryMap, known_categories in *.
  repeat case_decide; try done; exfalso; apply Hcat; set_solver.
Qed.

Lemma frontendCat_unknown category a :
  category ∉ known_categories →
  frontendCat (tag (upstream_category category) a) = "world".
Proof.
  intros Hcat. unfold frontendCat, upstream_category.
  rewrite categoryMap_unknown by done. cbn [tag apiCategory].
  destruct (bool_decide (category ∈ proto_keys)); [|reflexivity].
  by rewrite reverseMap_inherited_text.
Qed.

(** X11.  The list endpoint puts only the categories [tech], [business],
    [world], [sports] and [news] into the membership lists of the
    catalogue.  So for a catalogue with such lists only, a request for any
    other category catalogues the records that it fetches under [world],
    but answers no item and [totalResults] 0.  The feed that it fetches
    is the general one, except for a category that is the name of an
    inherited member of the category table: there the provider is asked
    for the text of that member. *)
Theorem api_news_unknown_category (getTime : string → Z)
    (toISOString : Z → string) (feed : FeedSource) (now : nat → Z)
    (st : server) (rq : news_query) :
  known (articleStore st) →
  let res := api_news getTime toISOString feed now st rq in
  known (articleStore res.1)
  ∧ (∀ l, rq_category rq ∉ known_categories →
          feed (upstream_category (rq_category rq)) (rq_q rq) 50%N = Some l →
          res.2 = {| items := []; totalResults := 0 |}
          ∧ ∀ i a, l !! i = Some a →
                   member (articleStore res.1)
                     (makeIdFromUrl (now i) (n_url a)) "world")
  ∧ (rq_category rq ∉ known_categories →
     rq_category rq ∉ proto_keys →
     upstream_category (rq_category rq) = "general")
  ∧ (rq_category rq ∈ proto_keys →
     upstream_category (rq_category rq) = inherited_text (rq_category rq)
     ∧ upstream_category (rq_category rq) ≠ "general")
  ∧ inherited_text "constructor" = "function Object() { [native code] }".
Proof.
  intros Hk res. subst res. split; [|split; [|split; [|split]]].
  - unfold api_news.
    destruct (collect getTime feed (rq_category rq) (rq_q rq)) as [all|];
      [|done].
    pose proof (listing_store (rq_category rq) (rq_page rq) now st all) as Hs.
    destruct (listing _ _ _ _ all) as [store its]. cbn [fst] in *.
    cbn [articleStore]. rewrite Hs. by apply upsert_all_known.
  - intros l Hcat Hfeed.
    set (up := upstream_category (rq_category rq)) in *.
    assert (rq_category rq ≠ "news") as Hne.
    { intros E. apply Hcat. rewrite E. unfold known_categories. set_solver. }
    assert (collect getTime feed (rq_category rq) (rq_q rq)
            = Some (map (tag up) l)) as Hc.
    { unfold collect. rewrite decide_False by done. fold up.
      by rewrite Hfeed. }
    rewrite (api_news_fetched _ _ _ _ _ _ _ Hc). cbn [fst snd articleStore].
    rewrite listing_store, listing_items.
    pose proof (upsert_all_known (rq_category rq) (rq_page rq) now (likesDB st)
                  (map (tag up) l) 0 (articleStore st) Hk) as Hk'.
    pose proof (upsert_all_member (rq_category rq) (rq_page rq) now (likesDB st)
                  (map (tag up) l) 0 (articleStore st)) as Hmem.
    destruct (upsert_all _ _ _ _ _ _ _) as [store its].
    cbn [fst snd] in *. cbv beta iota.
    destruct (decide (rq_category rq = "news")); [done|].
    split.
    + assert (filter (λ it, in_category store (rq_category rq) it = true) its
              = []) as ->.
      { induction its as [|it its IH]; [done|].
        rewrite filter_cons, IH. rewrite decide_False; [done|].
        unfold in_category.
        destruct (store !! i_id it) as [a|] eqn:Ha; [|done].
        destruct (a_categories a) as [cs|] eqn:Hcs; [|done].
        intros Hin%bool_decide_eq_true. apply Hcat. by eapply Hk'. }
      unfold paginate. by rewrite js_slice_nil.
    + intros i a Ha. destruct (Hmem i (tag up a)) as [Hf _].
      { by rewrite list_lookup_fmap, Ha. }
      unfold up in Hf at 2. rewrite frontendCat_unknown in Hf by done.
      rewrite article_id_makeId in Hf. exact Hf.
  - intros Hcat Hp. rewrite upstream_category_default by done.
    by rewrite categoryMap_unknown.
  - intros Hp.
    assert (categoryMap (rq_category rq) = None) as Hmap.
    { apply categoryMap_unknown. unfold known_categories, proto_keys in *.
      rewrite !elem_of_cons, elem_of_nil in Hp. rewrite !elem_of_cons, elem_of_nil.
      intros Hc. repeat (destruct Hp as [Hp|Hp]; [rewrite Hp in Hc; repeat (destruct Hc as [Hc|Hc]; [discriminate|]); done|]).
      done. }
    unfold upstream_category. rewrite Hmap, bool_decide_eq_true_2 by done.
    split; [done|]. unfold inherited_text.
    repeat case_decide; simpl; discriminate.
  - reflexivity.
Qed.

Lemma api_news_unknown_category_witness :
  (api_news IsoDate.getTime IsoDate.toISOString Sample.feed_a Sample.clock
     empty_server (Sample.news "politics")).2
  = {| items := []; totalResults := 0 |}.
Proof.
  destruct (api_news_unknown_category IsoDate.getTime IsoDate.toISOString
              Sample.feed_a Sample.clock empty_server (Sample.news "politics"))
    as (_ & H & _).
  - intros id a cs c Ha. change (articleStore empty_server) with
      (∅ : gmap string article) in Ha. by rewrite lookup_empty in Ha.
  - refine (proj1 (H _ _ eq_refl)).
    unfold known_categories. intros Hin.
    repeat (apply elem_of_cons in Hin as [E|Hin]; [discriminate|]).
    by apply elem_of_nil in Hin.
Defined.

(** X12.  A list request changes neither likes nor comments, and it
    leaves alone every record of the catalogue whose key is not the
    identifier of a fetched record; when the fetch of a single category
    fails, nothing at all is changed. *)
Theorem api_news_frame (getTime : string → Z) (toISOString : Z → string)
    (feed : FeedSource) (now : nat → Z) (st : server) (rq : news_query) :
  let res := api_news getTime toISOString feed now st rq in
  likesDB res.1 = likesDB st
  ∧ commentsDB res.1 = commentsDB st
  ∧ (∀ all k,
       collect getTime feed (rq_category rq) (rq_q rq) = Some all →
       (∀ i n, all !! i = Some n → makeIdFromUrl (now i) (n_url (s_raw n)) ≠ k) →
       articleStore res.1 !! k = articleStore st !! k)
  ∧ (collect getTime feed (rq_category rq) (rq_q rq) = None → res.1 = st).
Proof.
  intros res. subst res. unfold api_news.
  destruct (collect getTime feed (rq_category rq) (rq_q rq)) as [all|] eqn:Hc.
  - pose proof (listing_store (rq_category rq) (rq_page rq) now st all) as Hs.
    destruct (listing _ _ _ _ all) as [store its]. cbn [fst] in *.
    cbn [likesDB commentsDB articleStore].
    split; [done|]. split; [done|]. split; [|done].
    intros all' k [= <-] Hk. rewrite Hs. apply upsert_all_other.
    intros i n Hn. rewrite article_id_makeId. by apply Hk.
  - cbn [fst]. split; [done|]. split; [done|]. split; done.
Qed.

Lemma api_news_frame_witness :
  let st := {| articleStore := {[ "k" := Sample.old_article ]};
               likesDB := ∅; commentsDB := ∅ |} in
  (api_news IsoDate.getTime IsoDate.toISOString Sample.feed_down Sample.clock
     st (Sample.news "tech")).1 = st.
Proof.
  intros st.
  exact (proj2 (proj2 (proj2
           (api_news_frame IsoDate.getTime IsoDate.toISOString
              Sample.feed_down Sample.clock st (Sample.news "tech"))))
           eq_refl).
Defined.

(** ** Identifiers of articles *)

Lemma hex_digit_not_l x : Sha1.hex_digit (N.land x 15) ≠ "l"%char.
Proof.
  unfold Sha1.hex_digit. intros H.
  assert (N.land x 15 < 16)%N as Hlt.
  { change 15%N with (N.ones 4). rewrite N.land_ones.
    apply N.mod_lt. discriminate. }
  apply (f_equal N_of_ascii) in H.
  destruct (N.ltb_spec (N.land x 15) 10);
    rewrite N_ascii_embedding in H by lia;
    change (N_of_ascii "l") with 108%N in H; lia.
Qed.

Lemma sha1_not_local s t : sha1 s ≠ "local_" +:+ t.
Proof.
  unfold sha1, Sha1.hex.
  destruct (Sha1.digest s) as [[[[a b] c] d] e].
  cbn [Sha1.hex_be]. intros H. injection H as H _.
  by apply hex_digit_not_l in H.
Qed.

Lemma sha1_length s : String.length (sha1 s) = 40%nat.
Proof.
  unfold sha1, Sha1.hex.
  destruct (Sha1.digest s) as [[[[a b] c] d] e]. reflexivity.
Qed.

(** X13.  The identifier of an article with a URL is the SHA-1 of the URL,
    40 characters that depend on the URL alone and not on the clock; the
    identifier of an article without URL depends on the clock alone, so
    two such identifiers are equal exactly when the clock readings are.
    An identifier of the first kind is never one of the second kind. *)
Theorem makeIdFromUrl_identity (now1 now2 : Z) :
  (∀ u, u ≠ "" →
        makeIdFromUrl now1 (Some u) = sha1 u
        ∧ makeIdFromUrl now1 (Some u) = makeIdFromUrl now2 (Some u)
        ∧ String.length (makeIdFromUrl now1 (Some u)) = 40%nat)
  ∧ (∀ url1 url2,
       truthy url1 = false → truthy url2 = false →
       (makeIdFromUrl now1 url1 = makeIdFromUrl now2 url2 ↔ now1 = now2))
  ∧ (∀ u url,
       u ≠ "" → truthy url = false →
       makeIdFromUrl now1 (Some u) ≠ makeIdFromUrl now2 url).
Proof.
  split; [|split].
  - intros [|c u] Hu; [done|]. cbn [makeIdFromUrl].
    split; [done|]. split; [done|apply sha1_length].
  - intros url1 url2 H1 H2. rewrite !makeIdFromUrl_falsy by done. split.
    + intros H. apply (inj (String.append "local_")) in H.
      by apply (inj pretty) in H.
    + by intros ->.
  - intros [|c u] url Hu Hurl; [done|].
    rewrite (makeIdFromUrl_falsy now2) by done. cbn [makeIdFromUrl].
    apply sha1_not_local.
Qed.

Lemma makeIdFromUrl_identity_witness :
  makeIdFromUrl 1 (Some Sample.url_a) = makeIdFromUrl 2 (Some Sample.url_a)
  ∧ makeIdFromUrl 1 (Some Sample.url_a) ≠ makeIdFromUrl 2 None
  ∧ makeIdFromUrl 1 None ≠ makeIdFromUrl 2 (Some "").
Proof.
  destruct (makeIdFromUrl_identity 1 2) as (Hurl & Hclock & Hmix).
  split; [|split].
  - apply (Hurl Sample.url_a). discriminate.
  - apply Hmix; [discriminate|reflexivity].
  - intros H. apply (Hclock None (Some "")) in H; [discriminate|done..].
Defined.

(** X14.  Two records without URL that the list handler treats at the
    same clock reading get the same identifier: both items carry it, and
    the catalogue keeps a single record under it, in which the second
    record has been merged over the first. *)
Theorem url_less_records_collide (category : string) (page : Z)
    (now : nat → Z) (likes : gmap string like_record)
    (store : gmap string article) (n1 n2 : sighting) :
  truthy (n_url (s_raw n1)) = false →
  truthy (n_url (s_raw n2)) = false →
  now 0%nat = now 1%nat →
  let id := "local_" +:+ pretty (now 0%nat) in
  let res := upsert_all category page now likes 0 store [n1; n2] in
  map i_id res.2 = [id; id]
  ∧ res.1 !! id = Some (merge id (Some (merge id (store !! id) n1)) n2)
  ∧ (truthy (n_title (s_raw n2)) = true →
       res.1 !! id ≫= a_title = n_title (s_raw n2)).
Proof.
  intros H1 H2 Hnow id res. subst res. cbn [upsert_all fst snd map i_id make_item].
  rewrite !article_id_makeId, <- Hnow, !makeIdFromUrl_falsy by done. fold id.
  split; [done|]. unfold upsert. rewrite lookup_insert_eq, lookup_insert_eq.
  split; [done|]. intros Ht. cbn [mbind option_bind merge a_title].
  by apply js_or_truthy.
Qed.

Lemma url_less_records_collide_witness :
  let n1 := tag "technology" (Sample.raw (Some "First") None None) in
  let n2 := tag "technology" (Sample.raw (Some "Second") None None) in
  let res := upsert_all "tech" 1 (λ _, 5%Z) ∅ 0 ∅ [n1; n2] in
  map i_id res.2 = ["local_" +:+ pretty 5%Z; "local_" +:+ pretty 5%Z]
  ∧ res.1 !! ("local_" +:+ pretty 5%Z) ≫= a_title = Some "Second".
Proof.
  intros n1 n2 res.
  destruct (url_less_records_collide "tech" 1 (λ _, 5%Z) ∅ ∅ n1 n2
              eq_refl eq_refl eq_refl) as (Hids & _ & Ht).
  split; [exact Hids|]. exact (Ht eq_refl).
Defined.

(** ** Pages of a listing *)

Lemma paginate_page {l : list item} (p : nat) (size : Z) :
  (0 < size)%Z →
  items (paginate l (Z.of_nat (S p)) size)
  = take (Z.to_nat size) (drop (p * Z.to_nat size) l).
Proof.
  intros Hs. unfold paginate. cbn [items].
  rewrite js_slice_page by nia. do 2 f_equal. nia.
Qed.

(** X15.  With a positive page size the pages of a listing follow each
    other without gap or overlap: the items of the pages 1 to [n], one
    after the other, are the first [n * pageSize] filtered items, and all
    of them once [n * pageSize] reaches their number. *)
Theorem pages_partition (filteredItems : list item) (pageSize : Z) (n : nat) :
  (0 < pageSize)%Z →
  let pages :=
    map (λ p, items (paginate filteredItems (Z.of_nat p) pageSize)) (seq 1 n) in
  concat pages = take (n * Z.to_nat pageSize) filteredItems
  ∧ ((length filteredItems ≤ n * Z.to_nat pageSize)%nat →
       concat pages = filteredItems).
Proof.
  intros Hs pages.
  assert (concat pages = take (n * Z.to_nat pageSize) filteredItems) as Hcat.
  { subst pages. induction n as [|n IH]; [done|].
    rewrite seq_S, map_app, concat_app, IH. cbn [map concat].
    rewrite app_nil_r. change (1 + n)%nat with (S n).
    rewrite paginate_page by done. rewrite take_take_drop. f_equal. lia. }
  split; [done|]. intros Hlen. rewrite Hcat. by apply take_ge.
Qed.

Lemma pages_partition_witness :
  concat (map (λ p, items (paginate Sample.items25 (Z.of_nat p) 10)) (seq 1 3))
  = Sample.items25.
Proof.
  refine (proj2 (pages_partition Sample.items25 10 3 _) _).
  - reflexivity.
  - change (length Sample.items25) with 25%nat.
    change (3 * Z.to_nat 10)%nat with 30%nat. lia.
Defined.

(** ** The browser client *)

Lemma list_ascii_of_string_app s1 s2 :
  list_ascii_of_string (s1 +:+ s2)
  = list_ascii_of_string s1 ++ list_ascii_of_string s2.
Proof. induction s1 as [|c s1 IH]; simpl; [done|]. by rewrite IH. Qed.

Lemma escape_char_safe c :
  Forall (λ ch, ch ≠ "<"%char ∧ ch ≠ ">"%char ∧ ch ≠ "034"%char)
         (list_ascii_of_string (escape_char c)).
Proof.
  unfold escape_char. repeat case_decide; simpl;
    repeat constructor; first [discriminate | done].
Qed.

Lemma escape_char_plain c :
  c ∉ ["&"%char; "<"%char; ">"%char; "034"%char] →
  escape_char c = String c "".
Proof.
  intros Hc. unfold escape_char.
  repeat case_decide; try done; exfalso; apply Hc; subst; set_solver.
Qed.

(** X16.  The text that [escapeHtml] gives holds no less-than sign, no
    greater-than sign and no double quote, so that it cannot open a tag or
    close a double-quoted attribute; it is not shorter than the text
    given, a text without the four escaped characters is given back
    unchanged, and a missing or empty text gives the empty text. *)
Theorem escapeHtml_no_markup (s : option string) :
  Forall (λ ch, ch ≠ "<"%char ∧ ch ≠ ">"%char ∧ ch ≠ "034"%char)
         (list_ascii_of_string (escapeHtml s))
  ∧ (String.length (default "" s) ≤ String.length (escapeHtml s))%nat
  ∧ (Forall (λ ch, ch ∉ ["&"%char; "<"%char; ">"%char; "034"%char])
            (list_ascii_of_string (default "" s)) →
     escapeHtml s = default "" s)
  ∧ (truthy s = false → escapeHtml s = "").
Proof.
  assert (∀ t, Forall (λ ch, ch ≠ "<"%char ∧ ch ≠ ">"%char ∧ ch ≠ "034"%char)
                 (list_ascii_of_string (escape t))) as Hsafe.
  { induction t as [|c t IH]; simpl; [constructor|].
    rewrite list_ascii_of_string_app. apply Forall_app.
    split; [apply escape_char_safe|done]. }
  assert (∀ t, (String.length t ≤ String.length (escape t))%nat) as Hlen.
  { induction t as [|c t IH]; simpl; [done|].
    unfold escape_char. repeat case_decide; simpl;
      change ("" +:+ escape t) with (escape t); lia. }
  assert (∀ t, Forall (λ ch, ch ∉ ["&"%char; "<"%char; ">"%char; "034"%char])
                 (list_ascii_of_string t) → escape t = t) as Hplain.
  { induction t as [|c t IH]; simpl; [done|].
    intros [Hc Ht]%Forall_cons. rewrite escape_char_plain by done.
    simpl. by rewrite IH. }
  destruct s as [[|c t]|]; cbn [escapeHtml from_option Datatypes.id].
  - repeat split; try done; constructor.
  - split; [apply Hsafe|]. split; [apply Hlen|]. split; [apply Hplain|done].
  - repeat split; try done; constructor.
Qed.

Lemma escapeHtml_no_markup_witness :
  escapeHtml (Some "plain text 'quoted'") = "plain text 'quoted'"
  ∧ escapeHtml None = "".
Proof.
  split.
  - refine (proj1 (proj2 (proj2 (escapeHtml_no_markup
                                   (Some "plain text 'quoted'")))) _).
    simpl. repeat constructor; intros Hin;
      repeat (apply elem_of_cons in Hin as [E|Hin]; [discriminate|]);
      by apply elem_of_nil in Hin.
  - exact (proj2 (proj2 (proj2 (escapeHtml_no_markup None))) eq_refl).
Defined.

Lemma loadMore_full_page l n :
  (10 * (n + 1) ≤ length l)%nat →
  loadMore (answer_of l)
    {| fs_page := Z.of_nat n + 1; fs_busy := false; fs_eof := false;
       fs_feed := take (10 * n) l |}
  = {| fs_page := Z.of_nat (S n) + 1; fs_busy := false; fs_eof := false;
       fs_feed := take (10 * S n) l |}.
Proof.
  intros Hlen. unfold loadMore, answer_of.
  cbn [fs_busy fs_eof fs_page fs_feed orb].
  replace (Z.of_nat n + 1)%Z with (Z.of_nat (S n)) by lia.
  rewrite paginate_page by done. change (Z.to_nat 10) with 10%nat.
  assert (length (take 10 (drop (n * 10) l)) = 10%nat) as Hten.
  { rewrite length_take, length_drop. lia. }
  rewrite Hten. cbn [Nat.ltb Nat.leb].
  f_equal; try lia. rewrite (Nat.mul_comm 10 n), take_take_drop. f_equal. lia.
Qed.

Lemma loadMore_last_page l n :
  (10 * n ≤ length l)%nat → (length l < 10 * (n + 1))%nat →
  let s := loadMore (answer_of l)
             {| fs_page := Z.of_nat n + 1; fs_busy := false; fs_eof := false;
                fs_feed := take (10 * n) l |} in
  fs_feed s = l ∧ fs_eof s = true ∧ fs_busy s = false.
Proof.
  intros Hlo Hhi. unfold loadMore, answer_of.
  cbn [fs_busy fs_eof fs_page fs_feed orb].
  replace (Z.of_nat n + 1)%Z with (Z.of_nat (S n)) by lia.
  rewrite paginate_page by done. change (Z.to_nat 10) with 10%nat.
  cbn [fs_feed fs_eof fs_busy]. split; [|split; [|done]].
  - rewrite (Nat.mul_comm 10 n), take_take_drop. apply take_ge. lia.
  - apply Nat.ltb_lt. rewrite length_take, length_drop. lia.
Qed.

Lemma loadMore_at_end answer s : fs_eof s = true → loadMore answer s = s.
Proof. intros H. unfold loadMore. by rewrite H, orb_true_r. Qed.

(** X17.  Loading the feed page by page against a fixed list of filtered
    items shows every item once, in order: as long as full pages remain,
    [n] calls of [loadMore] after a refresh show the first [10 * n] items
    and ask for page [n + 1] next; the call after the last full page shows
    the rest and marks the end, and later calls change nothing.  A failed
    request marks the end and keeps the items shown. *)
Theorem loadMore_shows_all (l : list item) :
  let full := (length l / 10)%nat in
  (∀ n, (n ≤ full)%nat →
        Nat.iter n (loadMore (answer_of l)) refreshed
        = {| fs_page := Z.of_nat n + 1; fs_busy := false; fs_eof := false;
             fs_feed := take (10 * n) l |})
  ∧ (∀ n, (full < n)%nat →
          fs_feed (Nat.iter n (loadMore (answer_of l)) refreshed) = l
          ∧ fs_eof (Nat.iter n (loadMore (answer_of l)) refreshed) = true)
  ∧ (∀ s, fs_busy s = false → fs_eof s = false →
          loadMore (λ _, None) s
          = {| fs_page := fs_page s; fs_busy := false; fs_eof := true;
               fs_feed := fs_feed s |}).
Proof.
  intros full.
  assert (10 * full ≤ length l ∧ length l < 10 * (full + 1))%nat as [Hlo Hhi].
  { subst full. pose proof (Nat.div_mod_eq (length l) 10).
    pose proof (Nat.mod_upper_bound (length l) 10). lia. }
  assert (∀ n, (n ≤ full)%nat →
            Nat.iter n (loadMore (answer_of l)) refreshed
            = {| fs_page := Z.of_nat n + 1; fs_busy := false; fs_eof := false;
                 fs_feed := take (10 * n) l |}) as Hfull.
  { induction n as [|n IH]; intros Hn; [done|].
    rewrite Nat.iter_succ, IH by lia.
    apply loadMore_full_page. lia. }
  split; [exact Hfull|]. split.
  - intros n Hn.
    assert (∃ k, n = S (k + full)) as [k ->] by (exists (n - S full)%nat; lia).
    induction k as [|k IH].
    + cbn [Nat.add]. rewrite Nat.iter_succ, Hfull by lia.
      destruct (loadMore_last_page l full Hlo Hhi) as (Hf & He & _). done.
    + change (S (S k + full)) with (S (S (k + full))).
      rewrite Nat.iter_succ.
      destruct IH as [Hf He]; [lia|].
      by rewrite loadMore_at_end.
  - intros s Hb He. unfold loadMore. by rewrite Hb, He.
Qed.

Lemma loadMore_shows_all_witness :
  Nat.iter 2 (loadMore (answer_of Sample.items25)) refreshed
  = {| fs_page := 3; fs_busy := false; fs_eof := false;
       fs_feed := take 20 Sample.items25 |}
  ∧ fs_feed (Nat.iter 3 (loadMore (answer_of Sample.items25)) refreshed)
    = Sample.items25.
Proof.
  destruct (loadMore_shows_all Sample.items25) as (Hfull & Hend & _).
  split.
  - apply (Hfull 2%nat). change (length Sample.items25) with 25%nat.
    change (25 / 10)%nat with 2%nat. lia.
  - apply (Hend 3%nat). change (length Sample.items25) with 25%nat.
    change (25 / 10)%nat with 2%nat. lia.
Defined.

(** ** Posting a comment *)

Section Strip.
Variable t1 : ascii → bool.
Variable t2 : ascii → ascii → bool.
Variable t3 : ascii → ascii → ascii → bool.

(** The head of the text is white space. *)
Lemma strip_cases l :
  strip t1 t2 t3 l = l
  ∨ ∃ sp r, l = sp ++ r ∧ sp ≠ [] ∧ strip t1 t2 t3 l = strip t1 t2 t3 r.
Proof.
  destruct l as [|c1 r1]; [by left|]. cbn [strip].
  destruct (t1 c1). { right. exists [c1], r1. done. }
  destruct r1 as [|c2 r2]; [by left|].
  destruct (t2 c1 c2). { right. exists [c1; c2], r2. done. }
  destruct r2 as [|c3 r3]; [by left|].
  destruct (t3 c1 c2 c3); [|by left].
  right. exists [c1; c2; c3], r3. done.
Qed.

Lemma strip_suffix l : ∃ sp, l = sp ++ strip t1 t2 t3 l.
Proof.
  remember (length l) as n eqn:Hn. revert l Hn.
  induction n as [n IH] using lt_wf_ind. intros l ->.
  destruct (strip_cases l) as [->|(sp & r & -> & Hsp & ->)]; [by exists []|].
  destruct (IH (length r)) with (l := r) as [sp' Hr]; [|done|].
  { rewrite length_app. destruct sp; [done|simpl; lia]. }
  exists (sp ++ sp'). rewrite <- app_assoc. by f_equal.
Qed.

Lemma strip_length l : (length (strip t1 t2 t3 l) ≤ length l)%nat.
Proof.
  destruct (strip_suffix l) as [sp Hsp]. rewrite Hsp at 2.
  rewrite length_app. lia.
Qed.

Lemma strip_idem l : strip t1 t2 t3 (strip t1 t2 t3 l) = strip t1 t2 t3 l.
Proof.
  remember (length l) as n eqn:Hn. revert l Hn.
  induction n as [n IH] using lt_wf_ind. intros l ->.
  destruct (strip_cases l) as [H|(sp & r & -> & Hsp & ->)];
    [by rewrite !H|].
  apply (IH (length r)); [|done].
  rewrite length_app. destruct sp; [done|simpl; lia].
Qed.

(** A text without white space at its head has none after a cut of its
    end. *)
Lemma strip_prefix p q :
  strip t1 t2 t3 (p ++ q) = p ++ q → strip t1 t2 t3 p = p.
Proof.
  assert (∀ x y : list ascii,
            strip t1 t2 t3 x = y → (length x < length y)%nat → False)
    as Hlen.
  { intros x y <- Hlt. pose proof (strip_length x). lia. }
  intros H.
  destruct p as [|c1 r1]; [done|]. cbn [app strip] in *.
  destruct (t1 c1).
  { exfalso. apply Hlen in H; [done|simpl; lia]. }
  destruct r1 as [|c2 r2]; [done|]. cbn [app] in H.
  destruct (t2 c1 c2).
  { exfalso. apply Hlen in H; [done|simpl; lia]. }
  destruct r2 as [|c3 r3]; [done|]. cbn [app] in H.
  destruct (t3 c1 c2 c3); [|done].
  exfalso. apply Hlen in H; [done|simpl; lia].
Qed.

End Strip.

Lemma trim_idem s : trim (trim s) = trim s.
Proof.
  unfold trim. rewrite list_ascii_of_string_of_list_ascii. f_equal.
  set (m := drop_space (list_ascii_of_string s)).
  assert (drop_space (rev (drop_space_end (rev m)))
          = rev (drop_space_end (rev m))) as ->.
  { destruct (strip_suffix is_space (λ c1 c2, is_space2 c2 c1)
                (λ c1 c2 c3, is_space3 c3 c2 c1) (rev m)) as [sp Hsp].
    fold drop_space_end in Hsp.
    apply (strip_prefix is_space is_space2 is_space3 _ (rev sp)).
    rewrite <- rev_app_distr, <- Hsp, rev_involutive.
    apply strip_idem. }
  rewrite rev_involutive. f_equal. apply strip_idem.
Qed.

Lemma trim_nbsp : trim Sample.nbsp = "".
Proof. vm_compute. reflexivity. Qed.

Lemma trim_wide : trim Sample.wide = "hi".
Proof. vm_compute. reflexivity. Qed.

Lemma submitComment_cjk101 :
  (300 <? String.length Sample.cjk101)%nat = true
  ∧ js_length Sample.cjk101 = 101%nat
  ∧ submitComment (Some "bob") Sample.cjk101 = Post "bob" Sample.cjk101.
Proof. vm_compute. done. Qed.

(** X18.  A comment without user name is refused with status 401, also
    when its text is empty, and a comment of a signed-in user whose text
    is empty after trimming with status 400; a refused comment changes
    nothing.  For an article [id] that is not the name of an inherited
    member of the comment data without comments of its own, an accepted
    comment is stored at the end of the comments of its article with the
    trimmed text, no likes and the SHA-1 of article, author, time and text
    as identifier, and it changes neither the comments of other articles
    nor the catalogue nor the likes. *)
Theorem addComment_outcomes (toISOString : Z → string) (st : server)
    (id : string) (name text : option string) (now : Z) :
  let res := addComment toISOString st id name text now in
  (truthy name = false → res.1 = st ∧ AuthError res.2)
  ∧ (truthy name = true → trim (default "" text) = "" →
       res.1 = st ∧ ValidationError res.2)
  ∧ (truthy name = true → trim (default "" text) ≠ "" →
     inherited (commentsDB st) id = false →
       ∃ it, res.2 = Json it
             ∧ c_username it = default "" name
             ∧ c_text it = trim (default "" text)
             ∧ c_createdAt it = toISOString now
             ∧ c_id it = Some (comment_key id (c_username it) (c_createdAt it)
                                 (c_text it))
             ∧ c_likedBy it = Some [] ∧ c_likes it = Some 0%Z
             ∧ commentsDB res.1 !! id
               = Some (default [] (commentsDB st !! id) ++ [it])
             ∧ (∀ id', id' ≠ id →
                       commentsDB res.1 !! id' = commentsDB st !! id')
             ∧ articleStore res.1 = articleStore st
             ∧ likesDB res.1 = likesDB st).
Proof.
  intros res. subst res. split; [|split].
  - intros Hn. rewrite addComment_unauthorized by done.
    split; [done|by eexists].
  - intros Hn Ht. rewrite addComment_blank by done.
    split; [done|by eexists].
  - intros Hn Ht _. destruct name as [[|c s]|]; try done.
    destruct text as [t|]; [|done]. cbn [from_option Datatypes.id] in *.
    rewrite addComment_ok by done. cbn [fst snd].
    eexists. split; [reflexivity|].
    cbn [c_username c_text c_createdAt c_id c_likedBy c_likes commentsDB
         articleStore likesDB].
    repeat split; try done.
    + apply lookup_insert_eq.
    + intros id' Hne. by apply lookup_insert_ne.
Qed.

Lemma addComment_outcomes_witness :
  AuthError (addComment IsoDate.toISOString empty_server "a1" None (Some "")
               1000).2
  ∧ ValidationError (addComment IsoDate.toISOString empty_server "a1"
                       (Some "bob") (Some "   ") 1000).2
  ∧ ValidationError (addComment IsoDate.toISOString empty_server "a1"
                       (Some "bob") (Some Sample.nbsp) 1000).2
  ∧ ∃ it, (addComment IsoDate.toISOString empty_server "a1"
             (Some "bob") (Some Sample.wide) 1000).2 = Json it
          ∧ c_username it = "bob"
          ∧ c_text it = "hi".
Proof.
  destruct (addComment_outcomes IsoDate.toISOString empty_server "a1"
              None (Some "") 1000) as (Hauth & _).
  destruct (addComment_outcomes IsoDate.toISOString empty_server "a1"
              (Some "bob") (Some "   ") 1000) as (_ & Hval & _).
  destruct (addComment_outcomes IsoDate.toISOString empty_server "a1"
              (Some "bob") (Some Sample.nbsp) 1000) as (_ & Hnb & _).
  destruct (addComment_outcomes IsoDate.toISOString empty_server "a1"
              (Some "bob") (Some Sample.wide) 1000) as (_ & _ & Hok).
  split; [exact (proj2 (Hauth eq_refl))|].
  split; [exact (proj2 (Hval eq_refl eq_refl))|].
  split; [exact (proj2 (Hnb eq_refl trim_nbsp))|].
  destruct Hok as (it & Hit & Hu & Ht & _).
  - reflexivity.
  - cbn [from_option Datatypes.id]. rewrite trim_wide. discriminate.
  - apply inherited_empty. unfold proto_keys. set_solver.
  - exists it. split; [exact Hit|]. split; [exact Hu|].
    rewrite Ht. cbn [from_option Datatypes.id]. apply trim_wide.
Defined.

(** X19.  Whatever the comment form of the browser client posts is
    accepted by the server as it is: the form posts only for a signed-in
    user and only a trimmed, non-empty text of at most 300 UTF-16 code
    units, and, for an article [id] that is not the name of an inherited
    member of the comment data without comments of its own, the server
    stores exactly that text under that user name. *)
Theorem submitComment_is_accepted (toISOString : Z → string) (st : server)
    (id : string) (currentUser : option string) (value : string) (now : Z)
    (u t : string) :
  submitComment currentUser value = Post u t →
  currentUser = Some u ∧ u ≠ "" ∧ t = trim value ∧ t ≠ ""
  ∧ (js_length t ≤ 300)%nat
  ∧ (inherited (commentsDB st) id = false →
     ∃ st' it,
       addComment toISOString st id (Some u) (Some t) now = (st', Json it)
       ∧ c_username it = u ∧ c_text it = t
       ∧ commentsDB st' !! id
         = Some (default [] (commentsDB st !! id) ++ [it])).
Proof.
  unfold submitComment. intros H.
  destruct currentUser as [[|c s]|]; try discriminate.
  destruct (truthy (Some (trim value))) eqn:Htr; cbn [negb] in H;
    [|discriminate].
  destruct (300 <? js_length (trim value))%nat eqn:Hlen; [discriminate|].
  injection H as <- <-. apply Nat.ltb_ge in Hlen.
  apply truthy_Some_ne in Htr.
  split; [done|]. split; [done|]. split; [done|]. split; [done|].
  split; [done|]. intros _.
  rewrite addComment_ok by (by rewrite trim_idem).
  do 2 eexists. split; [reflexivity|]. cbn [c_username c_text commentsDB].
  rewrite trim_idem. split; [done|]. split; [done|].
  apply lookup_insert_eq.
Qed.

Lemma submitComment_is_accepted_witness :
  submitComment (Some "bob") Sample.cjk101 = Post "bob" Sample.cjk101
  ∧ (300 < String.length Sample.cjk101)%nat
  ∧ (js_length Sample.cjk101 ≤ 300)%nat
  ∧ ∃ st' it,
      addComment IsoDate.toISOString empty_server "a1" (Some "bob")
        (Some Sample.cjk101) 1000 = (st', Json it)
      ∧ c_username it = "bob" ∧ c_text it = Sample.cjk101
      ∧ commentsDB st' !! "a1"
        = Some (default [] (commentsDB empty_server !! "a1") ++ [it]).
Proof.
  destruct submitComment_cjk101 as (Hlen & _ & Hpost).
  destruct (submitComment_is_accepted IsoDate.toISOString empty_server "a1"
              (Some "bob") Sample.cjk101 1000 "bob" Sample.cjk101 Hpost)
    as (_ & _ & _ & _ & Hjs & Hok).
  split; [exact Hpost|]. split; [by apply Nat.ltb_lt|].
  split; [exact Hjs|].
  apply Hok. apply inherited_empty. unfold proto_keys. set_solver.
Defined.

(** ** Trending and list requests on the same article *)

(** X20.  When the list endpoint sights an article that the trending
    endpoint had created, the record gets the membership list of the
    sighted category and ["news"] and that category as primary category,
    and it keeps the single category ["tech"] of the trending endpoint.
    Each of the fields title, summary, cover, time stamp, URL and source
    takes the value of the sighting, and keeps the value of the trending
    record when the sighting has none. *)
Theorem list_after_trending (id : string) (n0 : raw_article) (n : sighting)
    (store : gmap string article) :
  store !! id = Some (trend_article id n0) →
  let a := merge id (store !! id) n in
  let keeps (sighted kept field : option string) :=
    (truthy sighted = true → field = sighted)
    ∧ (truthy sighted = false → field = kept) in
  upsert id n store !! id = Some a
  ∧ a_id a = id
  ∧ a_categories a = Some [frontendCat n; "news"]
  ∧ a_primaryCategory a = Some (frontendCat n)
  ∧ a_category a = Some "tech"
  ∧ keeps (n_title (s_raw n)) (n_title n0) (a_title a)
  ∧ keeps (n_description (s_raw n)) (n_description n0) (a_summary a)
  ∧ keeps (n_urlToImage (s_raw n)) (n_urlToImage n0) (a_cover a)
  ∧ keeps (n_publishedAt (s_raw n)) (n_publishedAt n0) (a_publishedAt a)
  ∧ keeps (n_url (s_raw n)) (n_url n0) (a_url a)
  ∧ keeps (n_source (s_raw n)) (js_or (n_source n0) (Some "")) (a_source a).
Proof.
  intros Hs a keeps. subst a keeps. rewrite Hs. split.
  { unfold upsert. by rewrite lookup_insert_eq, Hs. }
  cbn [merge a_id a_categories a_primaryCategory a_category a_title a_url
       a_summary a_cover a_publishedAt a_source mbind option_bind
       trend_article from_option Datatypes.id].
  split; [done|].
  split.
  { f_equal. unfold array_from_set. cbn [app uniq_from].
    assert (frontendCat n ≠ "news") as Hne.
    { unfold frontendCat, reverseMap. repeat case_decide; done. }
    rewrite decide_False by set_solver.
    rewrite decide_False by set_solver. done. }
  split; [done|]. split; [done|].
  assert (∀ x y, (truthy x = true → js_or x y = x)
                 ∧ (truthy x = false → js_or x y = y)) as Hor.
  { intros x y.
    split; intros H; [by rewrite js_or_truthy|by rewrite js_or_falsy]. }
  repeat (split; [apply Hor|]).
  split; intros H.
  - rewrite (js_or_truthy (n_source (s_raw n))) by done.
    by rewrite js_or_truthy.
  - rewrite (js_or_falsy (n_source (s_raw n))) by done.
    unfold js_or. destruct (truthy (n_source n0)) eqn:E; [by rewrite E|done].
Qed.

Lemma list_after_trending_witness :
  let id := makeIdFromUrl 0 (Some Sample.url_a) in
  let n0 := Sample.raw (Some "A") (Some Sample.url_a) None in
  let store : gmap string article := {[ id := trend_article id n0 ]} in
  let n := tag "business" (Sample.raw None (Some Sample.url_a) None) in
  a_categories (merge id (store !! id) n) = Some ["business"; "news"]
  ∧ a_category (merge id (store !! id) n) = Some "tech"
  ∧ a_title (merge id (store !! id) n) = Some "A".
Proof.
  intros id n0 store n.
  destruct (list_after_trending id n0 n store)
    as (_ & _ & Hc & _ & Hk & Ht & _).
  { apply lookup_singleton_eq. }
  split; [exact Hc|]. split; [exact Hk|]. exact (proj2 Ht eq_refl).
Defined.
